(** * ApgRegrCalc: least-squares regression over 2-D points

    A shallow embedding of [src/classes/ApgRegrCalc.ts] (the five fit
    estimators, the coefficient of determination, the Gaussian solver and
    the rounding utility), together with the properties of the
    specification that concern them.

    Numbers are IEEE 754 binary64 values, as in the source language: the
    primitive [float] type, whose operations compute.  The host functions
    whose results the language standard leaves to the implementation
    ([Math.log], [Math.exp], the exponentiation operator and the printing
    of numbers) are the fields of the class [Host]. *)

From Stdlib Require Import String ZArith List Bool Lia.
From Stdlib Require Import Floats.
Import ListNotations.

Set Warnings "-inexact-float".
Local Open Scope float_scope.

(** ** Numbers *)

Module Num.

(** The number that an integer denotes, rounded to nearest even (exact
    for magnitudes up to 2^53): array lengths, loop counters and the
    integer options of a fit. *)
Definition ofZ (z : Z) : float :=
  SF2Prim (binary_normalize prec emax z 0 false).

Definition ofNat (n : nat) : float := ofZ (Z.of_nat n).

(** ToNumber on a nullable number: [null] converts to [+0]. *)
Definition ofNullable (o : option float) : float :=
  match o with
  | Some v => v
  | None => 0
  end.

(** The integer [floor (num / 2^k + 1/2)]: the integer nearest to the
    dyadic rational [num / 2^k], the larger one when two are equally
    near. *)
Definition nearestHalfUp (num : Z) (k : Z) : Z :=
  ((2 * num + 2 ^ k) / 2 ^ (k + 1))%Z.

(** [Math.round]: non-finite and integral numbers are returned as they
    are; otherwise the nearest integral number, ties going to the one
    closer to +infinity, and a result of zero keeps the sign of the
    argument. *)
Definition Math_round (v : float) : float :=
  match Prim2SF v with
  | S754_finite s m e =>
      if (0 <=? e)%Z then v
      else
        let r := nearestHalfUp (cond_Zopp s (Zpos m)) (- e) in
        if (r =? 0)%Z then (if s then neg_zero else zero) else ofZ r
  | _ => v
  end.

(** Rounding to the nearest integer with ties away from zero, as the
    specification words it: the magnitude is rounded half up and the
    sign restored. *)
Definition roundHalfAwayFromZero (v : float) : float :=
  match Prim2SF v with
  | S754_finite s m e =>
      if (0 <=? e)%Z then v
      else
        let r := nearestHalfUp (Zpos m) (- e) in
        if (r =? 0)%Z then (if s then neg_zero else zero)
        else ofZ (cond_Zopp s r)
  | _ => v
  end.

End Num.

(** [Math.E] *)
Definition Math_E : float := 2.718281828459045.

(** ** The host *)

Class Host : Type := {
  Math_log : float -> float;
  Math_exp : float -> float;
  Math_pow : float -> float -> float;
  Number_toString : float -> string
}.

(** ** Data model *)

(** A point: [x] is always a number, [y] is a number or [null]. *)
Record IApg2DPoint : Type := mkPoint {
  x : float;
  y : option float
}.

(** The options of a fit: the polynomial degree and the number of
    decimal places, both integers. *)
Record IApgRegrOptions : Type := mkOptions {
  order : Z;
  precision : Z
}.

Inductive eApgRegrTypes : Type :=
| LINEAR
| POLYNOMIAL
| POWER
| LOGARITMIC
| EXPONENTIAL.

Record IApgRegrResult : Type := mkResult {
  points : list IApg2DPoint;
  predicted : list IApg2DPoint;
  type : eApgRegrTypes;
  coefficients : list float;
  equation : string;
  r2 : float
}.

(** An array element with its index, as the callbacks of [forEach] and
    [reduce] receive them. *)
Definition indexed {A : Type} (l : list A) : list (nat * A) :=
  combine (seq 0 (length l)) l.

(** ** Arrays of numbers

    Reading past the end yields [undefined], which every arithmetic use
    in the source converts to NaN; writing past the end extends the
    array, the skipped cells being holes. *)
Module Js.

Definition get (a : list float) (i : nat) : float := nth i a nan.

Definition set (a : list float) (i : nat) (v : float) : list float :=
  if (i <? length a)%nat
  then firstn i a ++ v :: skipn (S i) a
  else a ++ repeat nan (i - length a) ++ [v].

End Js.

(** ** The matrix of the solver: a mutable array of arrays

    [gaussianElimination] binds [matrix] to its argument and assigns to
    the cells of that object; the computation is threaded through the
    matrix.  The inner arrays are distinct objects, as [polynomial], the
    only caller, builds them. *)
Definition Matrix : Type := list (list float).

Module St.

Definition t (A : Type) : Type := Matrix -> A * Matrix.

Definition ret {A : Type} (a : A) : t A := fun m => (a, m).

Definition bind {A B : Type} (c : t A) (f : A -> t B) : t B :=
  fun m => let (a, m') := c m in f a m'.

(** [matrix[k][i]] *)
Definition rd (k i : nat) : t float :=
  fun m => (Js.get (nth k m []) i, m).

(** [matrix[k][i] = v]; the outer index is within the matrix at every
    use in the solver. *)
Definition wr (k i : nat) (v : float) : t unit :=
  fun m => (tt, firstn k m ++ match skipn k m with
                              | [] => []
                              | col :: rest => Js.set col i v :: rest
                              end).

Fixpoint forEach {A : Type} (l : list A) (body : A -> t unit) : t unit :=
  match l with
  | [] => ret tt
  | a :: l' => bind (body a) (fun _ => forEach l' body)
  end.

Fixpoint foldM {A B : Type} (f : B -> A -> t B) (l : list A) (b : B) : t B :=
  match l with
  | [] => ret b
  | a :: l' => bind (f b a) (foldM f l')
  end.

End St.

Declare Scope st_scope.
Delimit Scope st_scope with st.
Notation "v <- c ;; k" := (St.bind c (fun v => k))
  (at level 61, c at next level, right associativity) : st_scope.
Notation "c ;; k" := (St.bind c (fun _ => k))
  (at level 61, right associativity) : st_scope.

(** ** Exceptions: [None] is a thrown TypeError *)
Declare Scope exn_scope.
Delimit Scope exn_scope with exn.
Notation "v <- c ;; k" := (match c with Some v => k | None => None end)
  (at level 61, c at next level, right associativity) : exn_scope.

(** ** ApgRegrCalc *)

Section ApgRegrCalc.

Context {host : Host}.

Definition DEFAULT_OPTIONS : IApgRegrOptions :=
  {| order := 2; precision := 3 |}.

(** *** determinationCoefficient *)

(** The [forEach] of the source: the points whose y is not [null], and
    for each of them [results[i]], which is [undefined] ([None]) when
    [i] is past the end of [results]. *)
Definition observed (apoints results : list IApg2DPoint)
  : list IApg2DPoint * list (option IApg2DPoint) :=
  fold_left
    (fun acc ip =>
       match y (snd ip) with
       | Some _ => (fst acc ++ [snd ip], snd acc ++ [nth_error results (fst ip)])
       | None => acc
       end)
    (indexed apoints) ([], []).

(** The third [reduce]: reading [.y] of an [undefined] prediction
    throws. *)
Definition residualSum (observations : list IApg2DPoint)
           (predictions : list (option IApg2DPoint)) : option float :=
  fold_left
    (fun accum ic =>
       (a <- accum ;;
        prediction <- nth (fst ic) predictions None ;;
        let residual :=
          Num.ofNullable (y (snd ic)) - Num.ofNullable (y prediction) in
        Some (a + residual * residual))%exn)
    (indexed observations) (Some 0).

Definition determinationCoefficient (apoints results : list IApg2DPoint)
  : option float :=
  let observations := fst (observed apoints results) in
  let predictions := snd (observed apoints results) in
  let sum :=
    fold_left (fun accum acurrent => accum + Num.ofNullable (y acurrent))
      observations 0 in
  let mean := sum / Num.ofNat (length observations) in
  let squaredDeviationFromMean :=
    fold_left
      (fun accum acurrent =>
         let difference := Num.ofNullable (y acurrent) - mean in
         accum + difference * difference)
      observations 0 in
  (squardDifferenceFromPredicted <- residualSum observations predictions ;;
   Some (1 - squardDifferenceFromPredicted / squaredDeviationFromMean))%exn.

(** *** gaussianElimination *)

(** The scan for the entry of largest magnitude among
    [matrix[i][i .. n-1]]. *)
Definition pivot (i n : nat) : St.t nat :=
  St.foldM
    (fun maxrow j =>
       (a <- St.rd i j ;;
        b <- St.rd i maxrow ;;
        St.ret (if abs b <? abs a then j else maxrow))%st)
    (seq (i + 1) (n - (i + 1))) i.

Definition swap (i maxrow n : nat) : St.t unit :=
  St.forEach (seq i (n + 1 - i))
    (fun k =>
       (tmp <- St.rd k i ;;
        v <- St.rd k maxrow ;;
        St.wr k i v ;;
        St.wr k maxrow tmp)%st).

(** [k] runs from [n] down to [i]. *)
Definition eliminate (i n : nat) : St.t unit :=
  St.forEach (seq (i + 1) (n - (i + 1)))
    (fun j =>
       St.forEach (rev (seq i (n + 1 - i)))
         (fun k =>
            (a <- St.rd k j ;;
             b <- St.rd k i ;;
             c <- St.rd i j ;;
             d <- St.rd i i ;;
             St.wr k j (a - (b * c) / d))%st)).

Definition forwardElimination (n : nat) : St.t unit :=
  St.forEach (seq 0 n)
    (fun i =>
       (maxrow <- pivot i n ;;
        swap i maxrow n ;;
        eliminate i n)%st).

(** [j] runs from [n - 1] down to 0; [coefficients] starts as
    [[order]]. *)
Definition backSubstitution (n : nat) (order : float) : St.t (list float) :=
  St.foldM
    (fun coefficients j =>
       (total <- St.foldM
                   (fun total k =>
                      (a <- St.rd k j ;;
                       St.ret (total + a * Js.get coefficients k))%st)
                   (seq (j + 1) (n - (j + 1))) 0 ;;
        b <- St.rd n j ;;
        d <- St.rd j j ;;
        St.ret (Js.set coefficients j ((b - total) / d)))%st)
    (rev (seq 0 n)) [order].

(** The returned pair is the vector of coefficients and the matrix as
    the call leaves it.  With an empty [input], [n] is -1 in the source
    and no loop runs, as with [n = 0]. *)
Definition gaussianElimination (input : Matrix) (order : float)
  : list float * Matrix :=
  let n := (length input - 1)%nat in
  (forwardElimination n ;; backSubstitution n order)%st input.

(** *** round *)

Definition round (number : float) (precision : Z) : float :=
  let factor := Math_pow 10 (Num.ofZ precision) in
  Num.Math_round (number * factor) / factor.

(** *** linear *)

(** The accumulation loop: the count of points with a y, and the five
    sums. *)
Definition linearSums (apoints : list IApg2DPoint)
  : nat * (float * float * float * float * float) :=
  fold_left
    (fun acc p =>
       let '(len, (s0, s1, s2, s3, s4)) := acc in
       match y p with
       | Some v =>
           (S len, (s0 + x p, s1 + v, s2 + x p * x p, s3 + x p * v, s4 + v * v))
       | None => acc
       end)
    apoints (0%nat, (0, 0, 0, 0, 0)).

Definition linear (apoints : list IApg2DPoint) (aoptions : IApgRegrOptions)
  : option IApgRegrResult :=
  let '(len, (s0, s1, s2, s3, s4)) := linearSums apoints in
  let len := Num.ofNat len in
  let run := len * s2 - s0 * s0 in
  let rise := len * s3 - s0 * s1 in
  let gradient :=
    if run =? 0 then 0 else round (rise / run) (precision aoptions) in
  let intercept :=
    round (s1 / len - (gradient * s0) / len) (precision aoptions) in
  let predictLinearFn := fun v : float =>
    let newY := gradient * v + intercept in
    {| x := round v (precision aoptions);
       y := Some (round newY (precision aoptions)) |} in
  let predicted := map (fun point => predictLinearFn (x point)) apoints in
  (r2 <- determinationCoefficient apoints predicted ;;
   Some {| points := apoints;
           predicted := predicted;
           type := LINEAR;
           coefficients := [gradient; intercept];
           equation :=
             (if (intercept =? 0)%float
              then "y = " ++ Number_toString gradient ++ "x"
              else "y = " ++ Number_toString gradient ++ "x + "
                          ++ Number_toString intercept)%string;
           r2 := round r2 (precision aoptions) |})%exn.

(** *** exponential *)

Definition exponentialSums (apoints : list IApg2DPoint)
  : float * float * float * float * float * float :=
  fold_left
    (fun acc p =>
       let '(s0, s1, s2, s3, s4, s5) := acc in
       match y p with
       | Some v =>
           (s0 + x p,
            s1 + v,
            s2 + x p * x p * v,
            s3 + v * Math_log v,
            s4 + x p * v * Math_log v,
            s5 + x p * v)
       | None => acc
       end)
    apoints (0, 0, 0, 0, 0, 0).

Definition exponential (apoints : list IApg2DPoint) (aoptions : IApgRegrOptions)
  : option IApgRegrResult :=
  let '(s0, s1, s2, s3, s4, s5) := exponentialSums apoints in
  let denominator := s1 * s2 - s5 * s5 in
  let a := Math_exp ((s2 * s3 - s5 * s4) / denominator) in
  let b := (s1 * s4 - s5 * s3) / denominator in
  let coeffA := round a (precision aoptions) in
  let coeffB := round b (precision aoptions) in
  let predictExponentialFn := fun v : float =>
    let newY := coeffA * Math_exp (coeffB * v) in
    {| x := round v (precision aoptions);
       y := Some (round newY (precision aoptions)) |} in
  let predicted := map (fun point => predictExponentialFn (x point)) apoints in
  (r2 <- determinationCoefficient apoints predicted ;;
   Some {| points := apoints;
           predicted := predicted;
           type := EXPONENTIAL;
           coefficients := [coeffA; coeffB];
           equation :=
             ("y = " ++ Number_toString coeffA ++ "e^("
                     ++ Number_toString coeffB ++ "x)")%string;
           r2 := round r2 (precision aoptions) |})%exn.

(** *** logarithmic *)

Definition logarithmicSums (apoints : list IApg2DPoint)
  : float * float * float * float :=
  fold_left
    (fun acc p =>
       let '(s0, s1, s2, s3) := acc in
       match y p with
       | Some v =>
           (s0 + Math_log (x p),
            s1 + v * Math_log (x p),
            s2 + v,
            s3 + Math_pow (Math_log (x p)) 2)
       | None => acc
       end)
    apoints (0, 0, 0, 0).

(** [len] is the length of the whole array. *)
Definition logarithmic (apoints : list IApg2DPoint) (aoptions : IApgRegrOptions)
  : option IApgRegrResult :=
  let '(s0, s1, s2, s3) := logarithmicSums apoints in
  let len := Num.ofNat (length apoints) in
  let a := (len * s1 - s2 * s0) / (len * s3 - s0 * s0) in
  let coeffB := round a (precision aoptions) in
  let coeffA := round ((s2 - coeffB * s0) / len) (precision aoptions) in
  let predictLogaritmicFn := fun v : float =>
    let newY := coeffA + coeffB * Math_log v in
    {| x := round v (precision aoptions);
       y := Some (round newY (precision aoptions)) |} in
  let predicted := map (fun point => predictLogaritmicFn (x point)) apoints in
  (r2 <- determinationCoefficient apoints predicted ;;
   Some {| points := apoints;
           predicted := predicted;
           type := LOGARITMIC;
           coefficients := [coeffA; coeffB];
           equation :=
             ("y = " ++ Number_toString coeffA ++ " + "
                     ++ Number_toString coeffB ++ " ln(x)")%string;
           r2 := round r2 (precision aoptions) |})%exn.

(** *** power *)

(** The fifth cell of [sum] is never assigned. *)
Definition powerSums (apoints : list IApg2DPoint)
  : float * float * float * float * float :=
  fold_left
    (fun acc p =>
       let '(s0, s1, s2, s3, s4) := acc in
       match y p with
       | Some v =>
           (s0 + Math_log (x p),
            s1 + Math_log v * Math_log (x p),
            s2 + Math_log v,
            s3 + Math_pow (Math_log (x p)) 2,
            s4)
       | None => acc
       end)
    apoints (0, 0, 0, 0, 0).

(** [len] is the length of the whole array. *)
Definition power (apoints : list IApg2DPoint) (aoptions : IApgRegrOptions)
  : option IApgRegrResult :=
  let '(s0, s1, s2, s3, _) := powerSums apoints in
  let len := Num.ofNat (length apoints) in
  let b := (len * s1 - s0 * s2) / (len * s3 - Math_pow s0 2) in
  let a := (s2 - b * s0) / len in
  let coeffA := round (Math_exp a) (precision aoptions) in
  let coeffB := round b (precision aoptions) in
  let predictPowerFn := fun ax : float =>
    let newY := coeffA * Math_pow ax coeffB in
    {| x := round ax (precision aoptions);
       y := Some (round newY (precision aoptions)) |} in
  let predicted := map (fun point => predictPowerFn (x point)) apoints in
  (r2 <- determinationCoefficient apoints predicted ;;
   Some {| points := apoints;
           predicted := predicted;
           type := POWER;
           coefficients := [coeffA; coeffB];
           equation :=
             ("y = " ++ Number_toString coeffA ++ "x^"
                     ++ Number_toString coeffB)%string;
           r2 := round r2 (precision aoptions) |})%exn.

(** *** polynomial *)

(** The augmented matrix of the normal equations: [k] arrays of the
    sums of [x ** (i + j)], then the array of the sums of
    [x ** i * y], over the points with a y. *)
Definition polynomialSystem (apoints : list IApg2DPoint) (k : nat) : Matrix :=
  let lhs :=
    map (fun i =>
           fold_left
             (fun a p =>
                match y p with
                | Some v => a + Math_pow (x p) (Num.ofNat i) * v
                | None => a
                end)
             apoints 0)
        (seq 0 k) in
  let rhs :=
    map (fun i =>
           map (fun j =>
                  fold_left
                    (fun b p =>
                       match y p with
                       | Some _ => b + Math_pow (x p) (Num.ofNat (i + j))
                       | None => b
                       end)
                    apoints 0)
               (seq 0 k))
        (seq 0 k) in
  rhs ++ [lhs].

(** The constant [coefficients] of the source: the solver's vector,
    each entry rounded. *)
Definition polynomialCoefficients (apoints : list IApg2DPoint)
           (aoptions : IApgRegrOptions) : list float :=
  let k := (order aoptions + 1)%Z in
  map (fun v => round v (precision aoptions))
      (fst (gaussianElimination (polynomialSystem apoints (Z.to_nat k))
                                (Num.ofZ k))).

(** [coefficients.reduce((sum, coeff, power) => sum + coeff * x ** power, 0)] *)
Definition polynomialValue (coefficients : list float) (v : float) : float :=
  fold_left
    (fun sum pc => sum + snd pc * Math_pow v (Num.ofNat (fst pc)))
    (indexed coefficients) 0.

(** The equation loop: [i] runs from the last index down to 0. *)
Definition polynomialEquation (coefficients : list float) : string :=
  fold_left
    (fun equation i =>
       (if (1 <? i)%nat then
          equation ++ Number_toString (Js.get coefficients i) ++ "x^"
                   ++ Number_toString (Num.ofNat i) ++ " + "
        else if (i =? 1)%nat then
          equation ++ Number_toString (Js.get coefficients i) ++ "x + "
        else
          equation ++ Number_toString (Js.get coefficients i))%string)
    (rev (seq 0 (length coefficients))) "y = "%string.

Definition polynomial (apoints : list IApg2DPoint) (aoptions : IApgRegrOptions)
  : option IApgRegrResult :=
  let coefficients := polynomialCoefficients apoints aoptions in
  let predictPolynomialFn := fun v : float =>
    let newY := polynomialValue coefficients v in
    {| x := round v (precision aoptions);
       y := Some (round newY (precision aoptions)) |} in
  let predicted := map (fun apoint => predictPolynomialFn (x apoint)) apoints in
  let equation := polynomialEquation coefficients in
  (r2 <- determinationCoefficient apoints predicted ;;
   Some {| points := apoints;
           predicted := predicted;
           type := POLYNOMIAL;
           coefficients := rev coefficients;
           equation := equation;
           r2 := round r2 (precision aoptions) |})%exn.

End ApgRegrCalc.

(** ** A host for evaluation

    Exponentiation by an integral exponent is repeated multiplication
    (its reciprocal for a negative one), exact wherever the power is
    representable; [Math.log] and [Math.exp] are given at 0, 1 and e;
    integral numbers print in decimal.  Outside these arguments the
    functions return NaN or the empty string; no statement below
    depends on such a value. *)
Module SampleHost.

(** The integer that a number is, when it is one. *)
Definition toZ (v : float) : option Z :=
  match Prim2SF v with
  | S754_zero _ => Some 0%Z
  | S754_finite s m e =>
      if (0 <=? e)%Z then Some (cond_Zopp s (Zpos m * 2 ^ e))%Z
      else if (Zpos m mod 2 ^ (- e) =? 0)%Z
           then Some (cond_Zopp s (Zpos m / 2 ^ (- e)))%Z
           else None
  | _ => None
  end.

Fixpoint powNat (b : float) (n : nat) : float :=
  match n with
  | O => 1
  | S n' => b * powNat b n'
  end.

Definition pow (b e : float) : float :=
  match toZ e with
  | Some (Zneg p) => 1 / powNat b (Pos.to_nat p)
  | Some z => powNat b (Z.to_nat z)
  | None => nan
  end.

Definition log (v : float) : float :=
  if Leibniz.eqb v 1 then 0 else if Leibniz.eqb v Math_E then 1 else nan.

Definition exp (v : float) : float :=
  if v =? 0 then 1 else if Leibniz.eqb v 1 then Math_E else nan.

Fixpoint digits (fuel : nat) (n : N) (acc : string) : string :=
  match fuel with
  | O => acc
  | S fuel' =>
      let acc' :=
        String (Ascii.ascii_of_N (48 + N.modulo n 10)) acc in
      if (n <? 10)%N then acc' else digits fuel' (N.div n 10) acc'
  end.

Definition toString (v : float) : string :=
  match toZ v with
  | Some (Zneg p) => ("-" ++ digits 20 (Npos p) EmptyString)%string
  | Some z => digits 20 (Z.to_N z) EmptyString
  | None => EmptyString
  end.

Definition host : Host :=
  {| Math_log := log; Math_exp := exp; Math_pow := pow;
     Number_toString := toString |}.

End SampleHost.

(** ** Vocabulary of the statements *)

(** A point with an observation. *)
Definition present (p : IApg2DPoint) : bool :=
  match y p with
  | Some _ => true
  | None => false
  end.

(** The predictions standing at the indices of the observed points, for
    two arrays of the same length. *)
Definition keptPredictions (apoints results : list IApg2DPoint)
  : list IApg2DPoint :=
  map snd (filter (fun pq => present (fst pq)) (combine apoints results)).

(** [1 - SSres / SStot] over the observed points and their predictions,
    summed in the order of the source. *)
Definition rSquared (observations predictions : list IApg2DPoint) : float :=
  let sum :=
    fold_left (fun accum acurrent => accum + Num.ofNullable (y acurrent))
      observations 0 in
  let mean := sum / Num.ofNat (length observations) in
  let sstot :=
    fold_left
      (fun accum acurrent =>
         accum + (Num.ofNullable (y acurrent) - mean)
                 * (Num.ofNullable (y acurrent) - mean))
      observations 0 in
  let ssres :=
    fold_left
      (fun accum oq =>
         accum + (Num.ofNullable (y (fst oq)) - Num.ofNullable (y (snd oq)))
                 * (Num.ofNullable (y (fst oq)) - Num.ofNullable (y (snd oq))))
      (combine observations predictions) 0 in
  1 - ssres / sstot.

(** A computation that leaves the matrix as it finds it. *)
Definition readOnly {A : Type} (c : St.t A) : Prop :=
  forall m, snd (c m) = m.

(** *** Binary64 values, by their specification *)
Module SF.

Definition one : spec_float := S754_finite false 4503599627370496 (-52).

(** Not a number, or of sign [s]. *)
Definition signIs (s : bool) (X : spec_float) : Prop :=
  match X with
  | S754_nan => True
  | S754_zero s' | S754_infinity s' | S754_finite s' _ _ => s' = s
  end.

Definition zeroOrNan (X : spec_float) : Prop :=
  match X with
  | S754_nan | S754_zero _ => True
  | _ => False
  end.

End SF.

(** The system [x + y + z = 6], [2y + 5z = -4], [2x + 5y - z = 27] in
    the layout of the solver: one array per unknown, holding its
    coefficient in each equation, then the array of the right-hand
    sides. *)
Definition knownSystem : Matrix :=
  [[1; 0; 2]; [1; 2; 5]; [1; 5; -1]; [6; -4; 27]].

(** The rounding utility as the specification words it: the number
    scaled by 10^precision, rounded to the nearest integer with ties
    away from zero, scaled back. *)
Definition roundHalfAway {host : Host} (number : float) (precision : Z)
  : float :=
  let factor := Math_pow 10 (Num.ofZ precision) in
  Num.roundHalfAwayFromZero (number * factor) / factor.

(** The method of the class for a kind of fit. *)
Definition fit {host : Host} (kind : eApgRegrTypes)
  : list IApg2DPoint -> IApgRegrOptions -> option IApgRegrResult :=
  match kind with
  | LINEAR => linear
  | POLYNOMIAL => polynomial
  | POWER => power
  | LOGARITMIC => logarithmic
  | EXPONENTIAL => exponential
  end.

(** The value at [v] of the curve of a kind, read off the coefficient
    array of a result: the formula of the kind's prediction function,
    the polynomial's array being read from its last index. *)
Definition curveValue {host : Host} (kind : eApgRegrTypes)
           (cs : list float) (v : float) : float :=
  match kind, cs with
  | LINEAR, [gradient; intercept] => gradient * v + intercept
  | EXPONENTIAL, [coeffA; coeffB] => coeffA * Math_exp (coeffB * v)
  | LOGARITMIC, [coeffA; coeffB] => coeffA + coeffB * Math_log v
  | POWER, [coeffA; coeffB] => coeffA * Math_pow v coeffB
  | POLYNOMIAL, _ => polynomialValue (rev cs) v
  | _, _ => nan
  end.

(** A number that [round] returned at a precision. *)
Definition rounded {host : Host} (precision : Z) (c : float) : Prop :=
  exists v, c = round v precision.

(** The term that the equation loop emits for the coefficient [c] of the
    power [i]. *)
Definition equationTerm {host : Host} (c : float) (i : nat) : string :=
  (if (1 <? i)%nat then
     Number_toString c ++ "x^" ++ Number_toString (Num.ofNat i) ++ " + "
   else if (i =? 1)%nat then Number_toString c ++ "x + "
   else Number_toString c)%string.

(** The terms of an array of coefficients read from its first index,
    the first entry going with the highest power. *)
Fixpoint equationTerms {host : Host} (stored : list float) : string :=
  match stored with
  | [] => EmptyString
  | c :: rest => (equationTerm c (length rest) ++ equationTerms rest)%string
  end.

(** The points (0,0), (1,1), (2,2). *)
Definition diagonal : list IApg2DPoint :=
  [mkPoint 0 (Some 0); mkPoint 1 (Some 1); mkPoint 2 (Some 2)].

(** The exponentiation of the host returns the listed values: each entry
    is a base, an exponent and the power. *)
Definition exactPowers {host : Host} (l : list (float * float * float)) : Prop :=
  Forall (fun t => Math_pow (fst (fst t)) (snd (fst t)) = snd t) l.

(** The points (1,1), (e,2) and a point without observation, and the
    points (1,e), (e,1) and a point without observation. *)
Definition partlyObserved : list IApg2DPoint :=
  [mkPoint 1 (Some 1); mkPoint Math_E (Some 2); mkPoint 1 None].

Definition partlyObservedPower : list IApg2DPoint :=
  [mkPoint 1 (Some Math_E); mkPoint Math_E (Some 1); mkPoint 1 None].

(** Evaluation with the values of the host functions given as
    hypotheses: the arguments of an application are computed and the
    hypothesis on the application is used. *)
Ltac split_facts :=
  repeat match goal with
         | H : exactPowers _ |- _ => unfold exactPowers in H
         | H : Forall _ (_ :: _) |- _ =>
             let H1 := fresh "Hpow" in
             apply Forall_cons_iff in H; destruct H as [H1 H];
             cbn [fst snd] in H1
         | H : Forall _ [] |- _ => clear H
         end.

Ltac use_fact H :=
  lazymatch type of H with
  | Math_pow ?a' ?b' = _ =>
      repeat first
        [ rewrite H
        | match goal with
          | |- context [Math_pow ?a ?b] =>
              change (Math_pow a b) with (Math_pow a' b')
          end ]
  | Math_log ?a' = _ =>
      repeat first
        [ rewrite H
        | match goal with
          | |- context [Math_log ?a] => change (Math_log a) with (Math_log a')
          end ]
  | Math_exp ?a' = _ =>
      repeat first
        [ rewrite H
        | match goal with
          | |- context [Math_exp ?a] => change (Math_exp a) with (Math_exp a')
          end ]
  end.

Ltac use_facts :=
  repeat match goal with
         | H : _ = _ |- _ => progress use_fact H
         end.

Ltac eval_closed t :=
  let v := eval vm_compute in t in change t with v.

Ltac eval_exp_args :=
  repeat match goal with
         | |- context [Math_exp ?a] =>
             let v := eval vm_compute in a in
             progress change (Math_exp a) with (Math_exp v)
         end.

(** The entries of [results] that [determinationCoefficient] keeps: for
    each observed point the entry at its index, [None] past the end. *)
Fixpoint keptEntries (apoints results : list IApg2DPoint)
  : list (option IApg2DPoint) :=
  match apoints with
  | [] => []
  | p :: ps =>
      (if present p then [hd_error results] else [])
        ++ keptEntries ps (tl results)
  end.


(** Every run of [c] from a matrix satisfying [Inv] ends in a matrix
    satisfying [Inv], with a value satisfying [Q]. *)
Definition keeps {A : Type} (Inv : Matrix -> Prop) (c : St.t A)
           (Q : A -> Prop) : Prop :=
  forall m, Inv m -> Inv (snd (c m)) /\ Q (fst (c m)).

(** The arrays of a matrix have the lengths [shape]. *)
Definition hasShape (shape : list nat) (m : Matrix) : Prop :=
  map (@length float) m = shape.

(** Two arrays of coefficients that differ at most at index 0. *)
Definition agreeAbove (cs1 cs2 : list float) : Prop :=
  length cs1 = length cs2 /\
  forall k, (1 <= k)%nat -> Js.get cs1 k = Js.get cs2 k.

(** One step of the back substitution, on a matrix that it only reads. *)
Definition substitute (n : nat) (m : Matrix) (coefficients : list float)
           (j : nat) : list float :=
  fst ((total <- St.foldM
                   (fun total k =>
                      (a <- St.rd k j ;;
                       St.ret (total + a * Js.get coefficients k))%st)
                   (seq (j + 1) (n - (j + 1))) 0 ;;
        b <- St.rd n j ;;
        d <- St.rd j j ;;
        St.ret (Js.set coefficients j ((b - total) / d)))%st m).

(** Unfolding of the shifts of the binary64 rounding. *)
Ltac shr_steps :=
  cbn [shr shr_record_of_loc round_nearest_even loc_of_shr_record
       shr_m shr_r shr_s Zdigits2 iter_pos shr_1 orb].

(** * Properties *)

(** ** Evaluation of the number model *)

Example Math_round_values :
  map Num.Math_round
      [2.5; -2.5; 0.5; -0.5; -0.2; 0.49999999999999994; 3; 123.45; -7.5;
       1.5; -1.5; -0.6; nan; infinity; 4503599627370497]
  = [3; -2; 1; neg_zero; neg_zero; 0; 3; 123; -7;
     2; -1; -1; nan; infinity; 4503599627370497].
Proof. vm_compute. reflexivity. Qed.

Example ofZ_values :
  map Num.ofZ [0; 1; -2; 1000; 9007199254740992]%Z
  = [0; 1; -2; 1000; 9007199254740992].
Proof. vm_compute. reflexivity. Qed.

Example SampleHost_pow_values :
  map (fun be => SampleHost.pow (fst be) (snd be))
      [(10, 3); (10, 2); (10, -2); (10, 0); (2, 2); (0, 0); (2, 0.5)]
  = [1000; 100; 0.01; 1; 4; 1; nan].
Proof. vm_compute. reflexivity. Qed.

(** ** Binary64 arithmetic *)
Module SFFacts.

Local Open Scope Z_scope.

Lemma bounded_cases m e :
  bounded prec emax m e = true ->
  (Zpos (digits2_pos m) = 53 /\ -1074 < e <= 971) \/
  (e = -1074 /\ Zpos (digits2_pos m) <= 53).
Proof.
  unfold bounded, canonical_mantissa, fexp, SpecFloat.emin, prec, emax.
  intros H. apply andb_prop in H. destruct H as [H1 H2].
  apply Z.eqb_eq in H1. apply Z.leb_le in H2. lia.
Qed.

Lemma canonical_shift m e :
  bounded prec emax m e = true ->
  fexp prec emax (Zpos (digits2_pos m) + e) - e = 0.
Proof.
  unfold bounded, canonical_mantissa. intros Hb.
  apply andb_prop in Hb. destruct Hb as [Hb _].
  apply Z.eqb_eq in Hb. lia.
Qed.

Lemma div_eucl_exact a q :
  a = 4503599627370496 * q -> Z.div_eucl a 4503599627370496 = (q, 0).
Proof.
  intros ->.
  generalize (Z_div_mod (4503599627370496 * q) 4503599627370496 eq_refl).
  destruct (Z.div_eucl (4503599627370496 * q) 4503599627370496) as [q' r].
  intros [H1 H2]. f_equal; lia.
Qed.

(** The quotient and exponent that the division of a number by 1 hands
    to the rounding. *)
Lemma div_core_one m e :
  bounded prec emax m e = true ->
  SFdiv_core_binary prec emax (Zpos m) e 4503599627370496 (-52)
  = (if e =? -1074 then (Zpos m, e, loc_Exact)
     else (Zpos m~0, e - 1, loc_Exact)).
Proof.
  intros Hb. unfold SFdiv_core_binary. cbn [Zdigits2 digits2_pos Pos.succ].
  destruct (bounded_cases m e Hb) as [[Hd He]|[He Hd]].
  - assert ((e =? -1074) = false) as -> by (apply Z.eqb_neq; lia).
    replace (Z.min (fexp prec emax (Z.pos (digits2_pos m) + e - (53 + -52)))
                   (e - -52))
      with (e - 1)
      by (unfold fexp, SpecFloat.emin, prec, emax; lia).
    replace (e - -52 - (e - 1)) with 53 by lia.
    rewrite Z.shiftl_mul_pow2 by lia.
    rewrite (div_eucl_exact _ (Zpos m~0))
      by (rewrite Pos2Z.inj_xO; change (2 ^ 53) with 9007199254740992; lia).
    reflexivity.
  - assert ((e =? -1074) = true) as -> by (apply Z.eqb_eq; lia).
    replace (Z.min (fexp prec emax (Z.pos (digits2_pos m) + e - (53 + -52)))
                   (e - -52))
      with e
      by (unfold fexp, SpecFloat.emin, prec, emax; lia).
    replace (e - -52 - e) with 52 by lia.
    rewrite Z.shiftl_mul_pow2 by lia.
    rewrite (div_eucl_exact _ (Zpos m))
      by (change (2 ^ 52) with 4503599627370496; lia).
    reflexivity.
Qed.

Lemma round_aux_exact s m e :
  bounded prec emax m e = true ->
  binary_round_aux prec emax s (Zpos m) e loc_Exact = S754_finite s m e.
Proof.
  intros Hb. pose proof (canonical_shift m e Hb) as Hz.
  unfold binary_round_aux, shr_fexp. cbn [Zdigits2].
  rewrite Hz. shr_steps. rewrite Hz. shr_steps.
  unfold bounded in Hb. apply andb_prop in Hb. destruct Hb as [_ Hb].
  rewrite Hb. reflexivity.
Qed.

Lemma round_aux_double s m e :
  bounded prec emax m e = true -> -1074 < e ->
  binary_round_aux prec emax s (Zpos m~0) (e - 1) loc_Exact
  = S754_finite s m e.
Proof.
  intros Hb He. pose proof (canonical_shift m e Hb) as Hz.
  unfold binary_round_aux, shr_fexp. cbn [Zdigits2 digits2_pos].
  assert (fexp prec emax (Z.pos (Pos.succ (digits2_pos m)) + (e - 1))
          - (e - 1) = 1) as H1.
  { rewrite Pos2Z.inj_succ. revert Hz.
    unfold fexp, SpecFloat.emin, prec, emax. lia. }
  rewrite H1. shr_steps.
  replace (e - 1 + 1) with e by lia.
  rewrite Hz. shr_steps.
  unfold bounded in Hb. apply andb_prop in Hb. destruct Hb as [_ Hb].
  rewrite Hb. reflexivity.
Qed.

(** Dividing a finite number by 1 returns it. *)
Lemma SFdiv_one s m e :
  bounded prec emax m e = true ->
  SFdiv prec emax (S754_finite s m e) SF.one = S754_finite s m e.
Proof.
  intros Hb. unfold SFdiv, SF.one. rewrite (div_core_one m e Hb).
  rewrite xorb_false_r.
  destruct (Z.eqb_spec e (-1074)) as [He|He].
  - apply round_aux_exact, Hb.
  - apply round_aux_double; [exact Hb|].
    destruct (bounded_cases m e Hb); lia.
Qed.

Lemma round_aux_sign s m e l :
  SF.signIs s (binary_round_aux prec emax s m e l).
Proof.
  unfold binary_round_aux.
  destruct (shr_fexp prec emax m e l) as [mrs' e'].
  destruct (shr_fexp prec emax _ e' loc_Exact) as [mrs'' e''].
  destruct (shr_m mrs''); [reflexivity | | exact I].
  destruct (e'' <=? emax - prec); reflexivity.
Qed.

(** A square is not negative. *)
Lemma SFmul_self_sign X : SF.signIs false (SFmul prec emax X X).
Proof.
  destruct X as [s|s| |s m e]; cbn [SFmul SF.signIs];
    try apply xorb_nilpotent; try exact I.
  rewrite xorb_nilpotent. apply round_aux_sign.
Qed.

Lemma SFadd_zero_sign X :
  SF.signIs false X ->
  SF.signIs false (SFadd prec emax (S754_zero false) X).
Proof.
  destruct X as [s|s| |s m e]; cbn [SF.signIs]; intros H; subst; cbn; auto.
Qed.

(** The deviation of a single observation from its own mean. *)
Lemma SFsub_own_mean A :
  valid_binary A = true ->
  SF.zeroOrNan
    (SFsub prec emax A
       (SFdiv prec emax (SFadd prec emax (S754_zero false) A) SF.one)).
Proof.
  destruct A as [s|s| |s m e]; intros Hv.
  - destruct s; exact I.
  - destruct s; exact I.
  - exact I.
  - cbn [SFadd]. rewrite SFdiv_one by exact Hv.
    cbn [SFsub]. rewrite Z.sub_diag. exact I.
Qed.

Lemma SFsquare_zero_or_nan D :
  SF.zeroOrNan D ->
  let T := SFadd prec emax (S754_zero false) (SFmul prec emax D D) in
  T = S754_zero false \/ T = S754_nan.
Proof.
  destruct D as [s|s| |s m e]; cbn; intros H; try contradiction; auto.
  destruct s; auto.
Qed.

Lemma SFdiv_by_zero_or_nan N T :
  SF.signIs false N -> T = S754_zero false \/ T = S754_nan ->
  let Q := SFdiv prec emax N T in
  Q = S754_nan \/ Q = S754_infinity false.
Proof.
  intros HN [->| ->]; destruct N as [s|s| |s m e]; cbn in *; subst; auto.
Qed.

Lemma SFsub_from_one Q :
  Q = S754_nan \/ Q = S754_infinity false ->
  let R := SFsub prec emax SF.one Q in
  R = S754_nan \/ R = S754_infinity true.
Proof. intros [->| ->]; cbn; auto. Qed.

Lemma Prim2SF_nan v : Prim2SF v = S754_nan -> is_nan v = true.
Proof.
  unfold Prim2SF. destruct (is_nan v); [reflexivity|].
  destruct (is_zero v); [discriminate|].
  destruct (is_infinity v); [discriminate|].
  destruct (Z.frexp v) as [r ex].
  destruct (shr_fexp prec emax _ _ loc_Exact) as [mrs e'].
  destruct (shr_m mrs); discriminate.
Qed.

(** With one observation [a] and its prediction [b], the quotient of
    the two sums of squares has a zero or NaN divisor. *)
Lemma single_observation (a b : float) :
  let v :=
    (1 - (0 + (a - b) * (a - b))
         / (0 + (a - (0 + a) / 1) * (a - (0 + a) / 1)))%float in
  is_nan v = true \/ v = neg_infinity.
Proof.
  intros v.
  assert (Prim2SF v = S754_nan \/ Prim2SF v = S754_infinity true) as [H|H].
  { unfold v.
    rewrite sub_spec, div_spec, !add_spec, !mul_spec, !sub_spec,
      div_spec, add_spec.
    change (Prim2SF 1) with SF.one.
    change (Prim2SF 0) with (S754_zero false).
    apply SFsub_from_one, SFdiv_by_zero_or_nan.
    - apply SFadd_zero_sign, SFmul_self_sign.
    - apply SFsquare_zero_or_nan, SFsub_own_mean, Prim2SF_valid. }
  - left. apply Prim2SF_nan, H.
  - right. apply Prim2SF_inj. rewrite H. reflexivity.
Qed.

End SFFacts.

(** ** determinationCoefficient *)

Lemma observed_from (pre results l o : list IApg2DPoint)
      (p : list (option IApg2DPoint)) :
  length results = length l ->
  fold_left
    (fun acc ip =>
       match y (snd ip) with
       | Some _ =>
           (fst acc ++ [snd ip],
            snd acc ++ [nth_error (pre ++ results) (fst ip)])
       | None => acc
       end)
    (combine (seq (length pre) (length l)) l) (o, p)
  = (o ++ filter present l, p ++ map Some (keptPredictions l results)).
Proof.
  revert pre results o p.
  induction l as [|a l IH]; intros pre [|r rs] o p Hlen;
    try discriminate Hlen.
  - cbn. now rewrite !app_nil_r.
  - injection Hlen as Hlen.
    cbn [length seq combine fold_left keptPredictions filter fst snd map].
    replace (pre ++ r :: rs) with ((pre ++ [r]) ++ rs)
      by (now rewrite <- app_assoc).
    replace (S (length pre)) with (length (pre ++ [r]))
      by (rewrite length_app; cbn; lia).
    assert (present a = match y a with Some _ => true | None => false end)
      as Hp by reflexivity.
    destruct (y a) as [v|]; rewrite Hp; cbn [fst snd map].
    + rewrite IH by exact Hlen.
      rewrite <- app_assoc, nth_error_app1, nth_error_app2, Nat.sub_diag
        by (rewrite ?length_app; cbn; lia).
      cbn. rewrite <- !app_assoc. reflexivity.
    + rewrite IH by exact Hlen. reflexivity.
Qed.

Lemma keptPredictions_length (l results : list IApg2DPoint) :
  length results = length l ->
  length (keptPredictions l results) = length (filter present l).
Proof.
  revert results. induction l as [|a l IH]; intros [|r rs] Hlen;
    try discriminate Hlen; [reflexivity|].
  injection Hlen as Hlen. unfold keptPredictions in *. cbn.
  destruct (present a); cbn; now rewrite IH.
Qed.

Lemma residualSum_from (pre : list (option IApg2DPoint))
      (obs qs : list IApg2DPoint) (acc : float) :
  length qs = length obs ->
  fold_left
    (fun accum ic =>
       (a <- accum ;;
        prediction <- nth (fst ic) (pre ++ map Some qs) None ;;
        let residual :=
          Num.ofNullable (y (snd ic)) - Num.ofNullable (y prediction) in
        Some (a + residual * residual))%exn)
    (combine (seq (length pre) (length obs)) obs) (Some acc)
  = Some
      (fold_left
         (fun accum oq =>
            accum + (Num.ofNullable (y (fst oq)) - Num.ofNullable (y (snd oq)))
                    * (Num.ofNullable (y (fst oq)) - Num.ofNullable (y (snd oq))))
         (combine obs qs) acc).
Proof.
  revert pre qs acc.
  induction obs as [|a obs IH]; intros pre [|q qs] acc Hlen;
    try discriminate Hlen; [reflexivity|].
  injection Hlen as Hlen.
  cbn [length seq combine fold_left map fst snd].
  rewrite app_nth2, Nat.sub_diag by lia. cbn [nth].
  replace (pre ++ Some q :: map Some qs) with ((pre ++ [Some q]) ++ map Some qs)
    by (now rewrite <- app_assoc).
  replace (S (length pre)) with (length (pre ++ [Some q]))
    by (rewrite length_app; cbn; lia).
  now rewrite IH.
Qed.

(** On arrays of the same length the function returns, and its value is
    the quotient formula over the observed points. *)
Lemma determinationCoefficient_aligned (apoints results : list IApg2DPoint) :
  length results = length apoints ->
  determinationCoefficient apoints results
  = Some (rSquared (filter present apoints) (keptPredictions apoints results)).
Proof.
  intros Hlen. unfold determinationCoefficient, observed, indexed.
  pose proof (observed_from [] results apoints [] [] Hlen) as Ho.
  cbn [app length] in Ho. rewrite Ho. cbn [fst snd].
  unfold residualSum, indexed.
  pose proof (residualSum_from [] _ _ 0 (keptPredictions_length _ _ Hlen))
    as Hr.
  cbn [app length] in Hr. rewrite Hr.
  reflexivity.
Qed.

(** C2, as stated, fails: a single observation 1 predicted as 2 gives
    -Infinity, which is not NaN. *)
Lemma determinationCoefficient_single_not_nan :
  let apoints := [mkPoint 0 (Some 1)] in
  let results := [mkPoint 0 (Some 2)] in
  length results = length apoints /\
  (length (filter present apoints) < 2)%nat /\
  determinationCoefficient apoints results = Some neg_infinity /\
  is_nan neg_infinity = false.
Proof. cbn. repeat split. lia. Qed.

(** C2 (amended): on index-aligned arrays with fewer than two observed
    points, determinationCoefficient returns NaN or -Infinity, and NaN
    when no point is observed. *)
Theorem determinationCoefficient_few_observations
        (apoints results : list IApg2DPoint) :
  length results = length apoints ->
  (length (filter present apoints) < 2)%nat ->
  exists v,
    determinationCoefficient apoints results = Some v /\
    (is_nan v = true \/ v = neg_infinity) /\
    (filter present apoints = [] -> is_nan v = true).
Proof.
  intros Hlen Hfew.
  rewrite (determinationCoefficient_aligned _ _ Hlen).
  pose proof (keptPredictions_length _ _ Hlen) as Hk.
  eexists. split; [reflexivity|].
  destruct (filter present apoints) as [|p [|p' obs]];
    [ | | cbn in Hfew; lia].
  - destruct (keptPredictions apoints results); [|discriminate Hk].
    split; [left|intros _]; reflexivity.
  - destruct (keptPredictions apoints results) as [|q [|q' qs]];
      try discriminate Hk.
    split; [|discriminate].
    exact (SFFacts.single_observation
             (Num.ofNullable (y p)) (Num.ofNullable (y q))).
Qed.

Lemma determinationCoefficient_few_observations_witness :
  exists v,
    determinationCoefficient [mkPoint 0 (Some 1); mkPoint 1 None]
                             [mkPoint 0 (Some 2); mkPoint 1 (Some 3)] = Some v /\
    (is_nan v = true \/ v = neg_infinity) /\
    (filter present [mkPoint 0 (Some 1); mkPoint 1 None] = [] -> is_nan v = true).
Proof.
  apply determinationCoefficient_few_observations; cbn; [reflexivity | lia].
Defined.

(** ** gaussianElimination *)

Lemma readOnly_ret {A : Type} (a : A) : readOnly (St.ret a).
Proof. intros m. reflexivity. Qed.

Lemma readOnly_rd (k i : nat) : readOnly (St.rd k i).
Proof. intros m. reflexivity. Qed.

Lemma readOnly_bind {A B : Type} (c : St.t A) (f : A -> St.t B) :
  readOnly c -> (forall a, readOnly (f a)) -> readOnly (St.bind c f).
Proof.
  intros Hc Hf m. unfold St.bind.
  specialize (Hc m). destruct (c m) as [a m']. cbn in Hc. subst m'.
  apply Hf.
Qed.

Lemma readOnly_foldM {A B : Type} (f : B -> A -> St.t B) (l : list A) :
  (forall b a, readOnly (f b a)) -> forall b, readOnly (St.foldM f l b).
Proof.
  intros Hf. induction l as [|a l IH]; intros b; cbn [St.foldM].
  - apply readOnly_ret.
  - apply readOnly_bind; [apply Hf | exact IH].
Qed.

Create HintDb readonly.
#[local] Hint Resolve readOnly_ret readOnly_rd : readonly.

(** The back substitution reads the matrix and assigns only to
    [coefficients]. *)
Lemma backSubstitution_readOnly (n : nat) (order : float) :
  readOnly (backSubstitution n order).
Proof.
  unfold backSubstitution. apply readOnly_foldM. intros coefficients j.
  repeat (apply readOnly_bind; [|intro]); auto with readonly.
  apply readOnly_foldM. intros total k.
  apply readOnly_bind; [|intro]; auto with readonly.
Qed.

(** C6: on the system x+y+z=6, 2y+5z=-4, 2x+5y-z=27, laid out as the
    solver reads it, gaussianElimination returns the vector [5, 3, -2]
    (x, y, z in the order of the unknowns), exactly. *)
Theorem gaussianElimination_known_system :
  fst (gaussianElimination knownSystem 3) = [5; 3; -2].
Proof. vm_compute. reflexivity. Qed.

(** C9: gaussianElimination assigns to the cells of the matrix it is
    given: the matrix after the call is the one the forward elimination
    produces, the solution being read off it; on the known system it
    differs from the entries passed in. *)
Theorem gaussianElimination_updates_input :
  (forall (input : Matrix) (order : float),
      let n := (length input - 1)%nat in
      snd (gaussianElimination input order) = snd (forwardElimination n input) /\
      fst (gaussianElimination input order)
      = fst (backSubstitution n order (snd (forwardElimination n input)))) /\
  snd (gaussianElimination knownSystem 3)
  = [[2; 0; 0]; [5; 2; 0]; [-1; 5; 5.25]; [27; -4; -10.5]] /\
  snd (gaussianElimination knownSystem 3) <> knownSystem.
Proof.
  split; [|split].
  - intros input order n. unfold gaussianElimination. fold n.
    unfold St.bind.
    destruct (forwardElimination n input) as [u m] eqn:Hfwd. cbn [snd].
    split; [apply backSubstitution_readOnly | reflexivity].
  - vm_compute. reflexivity.
  - intros H.
    apply (f_equal (fun m => Js.get (nth 0 m []) 0 =? 1)) in H.
    vm_compute in H. discriminate H.
Qed.

(** ** round *)

(** [nearestHalfUp num k] is within one half of [num / 2^k], and is the
    upper neighbour when [num / 2^k] lies halfway between two
    integers. *)
Lemma nearestHalfUp_nearest (num k : Z) :
  (0 <= k)%Z ->
  let r := Num.nearestHalfUp num k in
  ((2 * r - 1) * 2 ^ k <= 2 * num < (2 * r + 1) * 2 ^ k)%Z.
Proof.
  intros Hk r. unfold r, Num.nearestHalfUp.
  rewrite Z.pow_add_r, Z.pow_1_r by lia.
  assert (0 < 2 ^ k)%Z as HP by (apply Z.pow_pos_nonneg; lia).
  set (P := (2 ^ k)%Z) in *.
  pose proof (Z.div_mod (2 * num + P) (P * 2) ltac:(lia)) as Hdm.
  pose proof (Z.mod_pos_bound (2 * num + P) (P * 2) ltac:(lia)) as Hmod.
  set (q := ((2 * num + P) / (P * 2))%Z) in *.
  nia.
Qed.

(** C4, as stated, fails: -2.5 at precision 0 rounds to -2, not to the
    -3 that ties away from zero give. *)
Lemma round_tie_not_away_from_zero :
  @round SampleHost.host (-2.5) 0 = -2 /\
  @roundHalfAway SampleHost.host (-2.5) 0 = -3 /\
  @round SampleHost.host (-2.5) 0 <> @roundHalfAway SampleHost.host (-2.5) 0.
Proof.
  split; [vm_compute; reflexivity|].
  split; [vm_compute; reflexivity|].
  intros H. apply (f_equal (fun v => v =? -2)) in H.
  vm_compute in H. discriminate H.
Qed.

(** C4 (amended): round returns the number scaled by 10^precision,
    rounded by Math.round, scaled back; Math.round returns integral and
    non-finite numbers as they are and otherwise the nearest integer,
    the one closer to +infinity on a tie; with 10 ** 2 = 100 and
    10 ** -2 = 0.01, round(1.2345, 2) is 1.23 and round(12345, -2) is
    12300. *)
Theorem round_nearest_ties_up {host : Host} :
  (forall (number : float) (precision : Z),
      round number precision
      = Num.Math_round (number * Math_pow 10 (Num.ofZ precision))
        / Math_pow 10 (Num.ofZ precision)) /\
  (forall v s m e,
      Prim2SF v = S754_finite s m e -> (e < 0)%Z ->
      let num := cond_Zopp s (Zpos m) in
      let r := Num.nearestHalfUp num (- e) in
      ((2 * r - 1) * 2 ^ (- e) <= 2 * num < (2 * r + 1) * 2 ^ (- e))%Z /\
      Num.Math_round v
      = if (r =? 0)%Z then (if s then neg_zero else zero) else Num.ofZ r) /\
  (forall v,
      match Prim2SF v with
      | S754_finite _ _ e => (0 <= e)%Z
      | _ => True
      end ->
      Num.Math_round v = v) /\
  (Math_pow 10 2 = 100 -> round 1.2345 2 = 1.23) /\
  (Math_pow 10 (-2) = 0.01 -> round 12345 (-2) = 12300).
Proof.
  repeat split.
  - apply nearestHalfUp_nearest. lia.
  - apply nearestHalfUp_nearest. lia.
  - unfold Num.Math_round. rewrite H.
    destruct (Z.leb_spec 0 e); [lia | reflexivity].
  - intros v Hv. unfold Num.Math_round.
    destruct (Prim2SF v) as [s|s| |s m e]; try reflexivity.
    destruct (Z.leb_spec 0 e); [reflexivity | lia].
  - intros H. unfold round. change (Num.ofZ 2) with 2. rewrite H.
    vm_compute. reflexivity.
  - intros H. unfold round. change (Num.ofZ (-2)) with (-2). rewrite H.
    vm_compute. reflexivity.
Qed.

Lemma round_nearest_ties_up_witness :
  @round SampleHost.host 1.2345 2 = 1.23 /\
  @round SampleHost.host 12345 (-2) = 12300 /\
  Num.Math_round (-2.5) = -2.
Proof.
  destruct (@round_nearest_ties_up SampleHost.host)
    as (_ & Hties & _ & H2 & Hm2).
  split; [apply H2; vm_compute; reflexivity|].
  split; [apply Hm2; vm_compute; reflexivity|].
  apply (Hties (-2.5) true 5629499534213120%positive (-51)%Z);
    [vm_compute; reflexivity | lia].
Defined.

(** ** The fits *)

(** The predictions are as many as the points, so the coefficient of
    determination is computed. *)
Ltac r2_computed :=
  match goal with
  | |- context [determinationCoefficient ?a ?b] =>
      rewrite (determinationCoefficient_aligned a b) by apply length_map
  end.

Ltac split_sums :=
  repeat match goal with
         | |- context [let (_, _) := ?t in _] => destruct t
         | |- context [match ?t with pair _ _ => _ end] => destruct t
         end.

(** C8: for every kind, the result holds the input points as they were
    given and one prediction per point, the prediction at an index being
    computed from the x of the point at that index. *)
Theorem predicted_aligned_with_points {host : Host} (kind : eApgRegrTypes)
        (apoints : list IApg2DPoint) (aoptions : IApgRegrOptions) :
  exists r,
    fit kind apoints aoptions = Some r /\
    points r = apoints /\
    length (predicted r) = length apoints /\
    exists f : float -> float,
      forall i p,
        nth_error apoints i = Some p ->
        nth_error (predicted r) i
        = Some {| x := round (x p) (precision aoptions); y := Some (f (x p)) |}.
Proof.
  destruct kind; cbn [fit];
    unfold linear, polynomial, power, logarithmic, exponential;
    split_sums; r2_computed;
    (eexists; split; [reflexivity|]);
    cbn [points predicted];
    (split; [reflexivity|]);
    (split; [apply length_map|]);
    (eexists (fun v => _); intros i p Hi;
     rewrite nth_error_map, Hi; cbn [option_map];
     generalize (x p); intros v; reflexivity).
Qed.

Lemma predicted_aligned_with_points_witness :
  exists r (f : float -> float),
    @fit SampleHost.host POLYNOMIAL diagonal DEFAULT_OPTIONS = Some r /\
    length (predicted r) = 3%nat /\
    nth_error (predicted r) 1
    = Some {| x := @round SampleHost.host 1 3; y := Some (f 1) |}.
Proof.
  destruct (@predicted_aligned_with_points SampleHost.host POLYNOMIAL
              diagonal DEFAULT_OPTIONS) as (r & Hfit & _ & Hlen & f & Hf).
  exists r, f. split; [exact Hfit|]. split; [exact Hlen|].
  apply (Hf 1%nat (mkPoint 1 (Some 1))). reflexivity.
Defined.

Lemma rounded_round {host : Host} (v : float) (precision : Z) :
  rounded precision (round v precision).
Proof. exists v. reflexivity. Qed.

Lemma polynomialCoefficients_rounded {host : Host}
      (apoints : list IApg2DPoint) (aoptions : IApgRegrOptions) :
  Forall (rounded (precision aoptions)) (polynomialCoefficients apoints aoptions).
Proof.
  unfold polynomialCoefficients. apply Forall_map, Forall_forall.
  intros v _. apply rounded_round.
Qed.

(** C10: for every kind, each prediction is the rounded value of the
    kind's curve at the coefficients stored in the result, which are
    themselves rounded (the linear gradient is the literal 0 when the
    denominator is zero), and r2 is the rounded coefficient of
    determination of those predictions; the linear intercept is computed
    from the rounded gradient and the logarithmic coefficient a from the
    rounded coefficient b. *)
Theorem predictions_from_rounded_coefficients {host : Host}
        (kind : eApgRegrTypes)
        (apoints : list IApg2DPoint) (aoptions : IApgRegrOptions) :
  exists r,
    fit kind apoints aoptions = Some r /\
    predicted r
    = map (fun p =>
             {| x := round (x p) (precision aoptions);
                y := Some (round (curveValue kind (coefficients r) (x p))
                                 (precision aoptions)) |})
          apoints /\
    (exists v,
        determinationCoefficient apoints (predicted r) = Some v /\
        r2 r = round v (precision aoptions)) /\
    Forall (fun c => c = 0 \/ rounded (precision aoptions) c) (coefficients r) /\
    (kind = LINEAR ->
     let '(len, (s0, s1, _, _, _)) := linearSums apoints in
     exists gradient,
       coefficients r
       = [gradient;
          round (s1 / Num.ofNat len - (gradient * s0) / Num.ofNat len)
                (precision aoptions)]) /\
    (kind = LOGARITMIC ->
     let '(s0, _, s2, _) := logarithmicSums apoints in
     exists coeffB,
       coefficients r
       = [round ((s2 - coeffB * s0) / Num.ofNat (length apoints))
                (precision aoptions);
          coeffB]).
Proof.
  destruct kind; cbn [fit];
    unfold linear, polynomial, power, logarithmic, exponential;
    split_sums; r2_computed;
    (eexists; split; [reflexivity|]);
    cbn [points predicted coefficients r2 curveValue];
    rewrite ?rev_involutive;
    (split; [reflexivity|]);
    (split; [r2_computed; eexists; split; reflexivity|]).
  - (* linear *)
    split; [|split; [intros _; eexists; reflexivity | discriminate]].
    apply Forall_cons; [|apply Forall_cons; [|apply Forall_nil]].
    + destruct (_ =? 0); [left; reflexivity | right; apply rounded_round].
    + right. apply rounded_round.
  - (* polynomial *)
    split; [|split; discriminate].
    apply Forall_rev.
    eapply Forall_impl; [|apply polynomialCoefficients_rounded].
    intros c Hc. right. exact Hc.
  - (* power *)
    split; [|split; discriminate].
    repeat (apply Forall_cons; [right; apply rounded_round|]).
    apply Forall_nil.
  - (* logarithmic *)
    split; [|split; [discriminate | intros _; eexists; reflexivity]].
    repeat (apply Forall_cons; [right; apply rounded_round|]).
    apply Forall_nil.
  - (* exponential *)
    split; [|split; discriminate].
    repeat (apply Forall_cons; [right; apply rounded_round|]).
    apply Forall_nil.
Qed.

Lemma predictions_from_rounded_coefficients_witness :
  exists r gradient,
    @fit SampleHost.host LINEAR diagonal DEFAULT_OPTIONS = Some r /\
    coefficients r
    = [gradient;
       @round SampleHost.host
         (3 / Num.ofNat 3 - (gradient * 3) / Num.ofNat 3) 3].
Proof.
  destruct (@predictions_from_rounded_coefficients SampleHost.host LINEAR
              diagonal DEFAULT_OPTIONS) as (r & Hfit & _ & _ & _ & Hlin & _).
  specialize (Hlin eq_refl).
  change (linearSums diagonal) with (3%nat, (3, 3, 5, 5, 5)) in Hlin.
  cbv beta iota in Hlin. destruct Hlin as [gradient Hg].
  exists r, gradient. split; [exact Hfit | exact Hg].
Defined.

(** ** linear *)

(** The loop of [linear] sums over the observed points, in their
    order. *)
Lemma linearSums_from (l : list IApg2DPoint) (len : nat)
      (s0 s1 s2 s3 s4 : float) :
  fold_left
    (fun acc p =>
       let '(len, (s0, s1, s2, s3, s4)) := acc in
       match y p with
       | Some v =>
           (S len, (s0 + x p, s1 + v, s2 + x p * x p, s3 + x p * v, s4 + v * v))
       | None => acc
       end)
    l (len, (s0, s1, s2, s3, s4))
  = ((len + length (filter present l))%nat,
     (fold_left (fun a p => a + x p) (filter present l) s0,
      fold_left (fun a p => a + Num.ofNullable (y p)) (filter present l) s1,
      fold_left (fun a p => a + x p * x p) (filter present l) s2,
      fold_left (fun a p => a + x p * Num.ofNullable (y p)) (filter present l) s3,
      fold_left (fun a p => a + Num.ofNullable (y p) * Num.ofNullable (y p))
        (filter present l) s4)).
Proof.
  revert len s0 s1 s2 s3 s4.
  induction l as [|a l IH]; intros len s0 s1 s2 s3 s4.
  - cbn. now rewrite Nat.add_0_r.
  - cbn [fold_left filter].
    assert (present a = match y a with Some _ => true | None => false end)
      as Hp by reflexivity.
    destruct (y a) as [v|] eqn:Hy; rewrite Hp, IH.
    + cbn [fold_left length]. rewrite Hy. cbn [Num.ofNullable].
      now rewrite Nat.add_succ_r.
    + reflexivity.
Qed.

Lemma linearSums_observed (l : list IApg2DPoint) :
  linearSums l
  = (length (filter present l),
     (fold_left (fun a p => a + x p) (filter present l) 0,
      fold_left (fun a p => a + Num.ofNullable (y p)) (filter present l) 0,
      fold_left (fun a p => a + x p * x p) (filter present l) 0,
      fold_left (fun a p => a + x p * Num.ofNullable (y p)) (filter present l) 0,
      fold_left (fun a p => a + Num.ofNullable (y p) * Num.ofNullable (y p))
        (filter present l) 0)).
Proof. unfold linearSums. now rewrite linearSums_from. Qed.

(** C7: when n * sum(x^2) - sum(x)^2 over the observed points is zero,
    the linear fit returns the coefficients [0, intercept], the first
    being the gradient and the second the intercept of its
    predictions. *)
Theorem linear_zero_denominator {host : Host}
        (apoints : list IApg2DPoint) (aoptions : IApgRegrOptions) :
  let observations := filter present apoints in
  let n := Num.ofNat (length observations) in
  let sumX := fold_left (fun a p => a + x p) observations 0 in
  let sumXX := fold_left (fun a p => a + x p * x p) observations 0 in
  (n * sumXX - sumX * sumX =? 0) = true ->
  exists r intercept,
    linear apoints aoptions = Some r /\
    coefficients r = [0; intercept] /\
    predicted r
    = map (fun p =>
             {| x := round (x p) (precision aoptions);
                y := Some (round (0 * x p + intercept) (precision aoptions)) |})
          apoints.
Proof.
  intros observations n sumX sumXX Hrun.
  unfold linear. rewrite linearSums_observed.
  fold observations. fold n. fold sumX. fold sumXX.
  rewrite Hrun. r2_computed.
  eexists. eexists. split; [reflexivity|].
  split; reflexivity.
Qed.

Lemma linear_zero_denominator_witness :
  exists r intercept,
    @linear SampleHost.host [mkPoint 1 (Some 1); mkPoint 1 (Some 2)]
            DEFAULT_OPTIONS = Some r /\
    coefficients r = [0; intercept] /\
    predicted r
    = map (fun p =>
             {| x := @round SampleHost.host (x p) 3;
                y := Some (@round SampleHost.host (0 * x p + intercept) 3) |})
          [mkPoint 1 (Some 1); mkPoint 1 (Some 2)].
Proof.
  apply (@linear_zero_denominator SampleHost.host
           [mkPoint 1 (Some 1); mkPoint 1 (Some 2)] DEFAULT_OPTIONS).
  vm_compute. reflexivity.
Defined.

(** ** polynomial *)

Lemma append_assoc (s1 s2 s3 : string) :
  ((s1 ++ s2) ++ s3 = s1 ++ (s2 ++ s3))%string.
Proof. induction s1 as [|c s1 IH]; cbn; [reflexivity | now rewrite IH]. Qed.

(** The equation loop, run over an array given by its reversal, emits
    the entries of the reversal from its first index. *)
Lemma equation_loop_reversed {host : Host} (stored suffix : list float)
      (acc : string) :
  fold_left
    (fun equation i =>
       (if (1 <? i)%nat then
          equation ++ Number_toString (Js.get (rev stored ++ suffix) i) ++ "x^"
                   ++ Number_toString (Num.ofNat i) ++ " + "
        else if (i =? 1)%nat then
          equation ++ Number_toString (Js.get (rev stored ++ suffix) i) ++ "x + "
        else
          equation ++ Number_toString (Js.get (rev stored ++ suffix) i))%string)
    (rev (seq 0 (length stored))) acc
  = (acc ++ equationTerms stored)%string.
Proof.
  revert suffix acc.
  induction stored as [|c rest IH]; intros suffix acc.
  - cbn. induction acc as [|a acc IHacc]; cbn; [reflexivity | now rewrite <- IHacc].
  - cbn [length rev]. rewrite seq_S, rev_unit. cbn [fold_left Nat.add].
    rewrite <- app_assoc. cbn [app].
    rewrite IH.
    unfold Js.get at 1 2 3.
    rewrite app_nth2, length_rev, Nat.sub_diag by (rewrite length_rev; lia).
    cbn [nth equationTerms]. unfold equationTerm.
    destruct (1 <? length rest)%nat; [|destruct (length rest =? 1)%nat];
      now rewrite append_assoc.
Qed.

Lemma polynomialEquation_reversed {host : Host} (stored : list float) :
  polynomialEquation (rev stored) = ("y = " ++ equationTerms stored)%string.
Proof.
  unfold polynomialEquation. rewrite length_rev.
  pose proof (equation_loop_reversed stored [] "y = "%string) as H.
  rewrite app_nil_r in H. exact H.
Qed.

(** C1, as stated, fails: on (0,0), (1,1), (2,2) with order 1 the fitted
    line is y = 0 + 1x, the solver's vector is [0, 1] by ascending power,
    and the stored array is [1, 0]: index 0 holds the coefficient of the
    highest power, not the constant. *)
Lemma polynomial_storage_not_low_to_high :
  exists r,
    @polynomial SampleHost.host diagonal {| order := 1; precision := 3 |}
    = Some r /\
    @polynomialCoefficients SampleHost.host diagonal
      {| order := 1; precision := 3 |} = [0; 1] /\
    predicted r = diagonal /\
    coefficients r = [1; 0] /\
    map (fun p => @polynomialValue SampleHost.host (coefficients r) (x p))
        diagonal = [1; 1; 1].
Proof.
  eexists. split; [vm_compute; reflexivity|].
  vm_compute. repeat split.
Qed.

(** C1 (amended): the polynomial fit stores the solver's rounded vector
    reversed: the entry at index i of the result is the coefficient that
    the predictions multiply by x ** (length - 1 - i), so index 0 holds
    the highest power and the last index the constant; the equation
    emits the stored array from index 0, highest power first. *)
Theorem polynomial_coefficients_high_to_low {host : Host}
        (apoints : list IApg2DPoint) (aoptions : IApgRegrOptions) :
  exists r,
    polynomial apoints aoptions = Some r /\
    coefficients r = rev (polynomialCoefficients apoints aoptions) /\
    (forall i,
        (i < length (coefficients r))%nat ->
        Js.get (coefficients r) i
        = Js.get (polynomialCoefficients apoints aoptions)
                 (length (coefficients r) - 1 - i)) /\
    predicted r
    = map (fun p =>
             {| x := round (x p) (precision aoptions);
                y := Some (round (polynomialValue
                                    (polynomialCoefficients apoints aoptions)
                                    (x p))
                                 (precision aoptions)) |})
          apoints /\
    equation r = ("y = " ++ equationTerms (coefficients r))%string.
Proof.
  unfold polynomial. r2_computed.
  eexists. split; [reflexivity|].
  cbn [coefficients predicted equation].
  split; [reflexivity|]. split; [|split; [reflexivity|]].
  - intros i Hi. unfold Js.get. rewrite length_rev in *.
    rewrite rev_nth by exact Hi. f_equal. lia.
  - rewrite <- polynomialEquation_reversed, rev_involutive. reflexivity.
Qed.

Lemma polynomial_coefficients_high_to_low_witness :
  exists r,
    @polynomial SampleHost.host diagonal {| order := 1; precision := 3 |}
    = Some r /\
    Js.get (coefficients r) 0
    = Js.get (@polynomialCoefficients SampleHost.host diagonal
                {| order := 1; precision := 3 |})
             (length (coefficients r) - 1 - 0).
Proof.
  destruct (@polynomial_coefficients_high_to_low SampleHost.host diagonal
              {| order := 1; precision := 3 |}) as (r & Hfit & Hc & Hi & _).
  exists r. split; [exact Hfit|].
  apply Hi. rewrite Hc. vm_compute. lia.
Defined.

Lemma polynomialCoefficients_diagonal {host : Host} :
  exactPowers
    [(0, 0, 1); (1, 0, 1); (2, 0, 1); (0, 1, 0); (1, 1, 1); (2, 1, 2);
     (0, 2, 0); (1, 2, 1); (2, 2, 4); (10, 3, 1000)] ->
  polynomialCoefficients diagonal {| order := 1; precision := 3 |} = [0; 1].
Proof.
  intros H. split_facts.
  unfold polynomialCoefficients, polynomialSystem.
  cbn [order precision].
  change (Z.to_nat (1 + 1)) with 2%nat.
  cbn [seq map fold_left diagonal x y Nat.add].
  use_facts.
  match goal with
  | |- context [fst (gaussianElimination ?m ?o)] =>
      eval_closed (fst (gaussianElimination m o))
  end.
  cbn [map]. unfold round. use_facts.
  vm_compute. reflexivity.
Qed.

(** C5: on a host whose exponentiation is exact on the powers involved,
    the polynomial fit of order 1 at precision 3 of (0,0), (1,1), (2,2)
    returns the coefficients [1, 0] of the linear fit (slope 1,
    intercept 0), and r2 = 1. *)
Theorem polynomial_order_one_is_linear {host : Host} :
  exactPowers
    [(0, 0, 1); (1, 0, 1); (2, 0, 1); (0, 1, 0); (1, 1, 1); (2, 1, 2);
     (0, 2, 0); (1, 2, 1); (2, 2, 4); (10, 3, 1000)] ->
  exists r l,
    polynomial diagonal {| order := 1; precision := 3 |} = Some r /\
    linear diagonal {| order := 1; precision := 3 |} = Some l /\
    coefficients r = [1; 0] /\
    coefficients l = [1; 0] /\
    r2 r = 1 /\
    r2 l = 1.
Proof.
  intros H. pose proof (polynomialCoefficients_diagonal H) as Hc.
  split_facts.
  unfold polynomial, linear. rewrite Hc.
  eval_closed (linearSums diagonal).
  cbn [precision map diagonal x].
  unfold polynomialValue, indexed.
  cbn [length seq combine fold_left fst snd].
  unfold round. use_facts.
  repeat match goal with
         | |- context [determinationCoefficient ?a ?b] =>
             eval_closed (determinationCoefficient a b)
         end.
  cbv beta iota.
  eexists. eexists.
  split; [reflexivity|]. split; [reflexivity|].
  cbn [coefficients r2]. vm_compute. repeat split.
Qed.

Lemma polynomial_order_one_is_linear_witness :
  exists r l,
    @polynomial SampleHost.host diagonal {| order := 1; precision := 3 |}
    = Some r /\
    @linear SampleHost.host diagonal {| order := 1; precision := 3 |}
    = Some l /\
    coefficients r = [1; 0] /\
    coefficients l = [1; 0] /\
    r2 r = 1 /\
    r2 l = 1.
Proof.
  apply (@polynomial_order_one_is_linear SampleHost.host).
  repeat (apply Forall_cons; [vm_compute; reflexivity|]). apply Forall_nil.
Defined.

(** ** Points without observation *)

(** A loop that skips the points without observation sums over the
    observed points alone. *)
Lemma fold_left_observed {A : Type} (step : A -> IApg2DPoint -> A) :
  (forall acc p, y p = None -> step acc p = acc) ->
  forall l a,
    fold_left step (filter present l) a = fold_left step l a.
Proof.
  intros Hskip. induction l as [|p l IH]; intros a; [reflexivity|].
  cbn [filter fold_left].
  assert (present p = match y p with Some _ => true | None => false end)
    as Hp by reflexivity.
  destruct (y p) as [v|] eqn:Hy; rewrite Hp.
  - cbn [fold_left]. apply IH.
  - rewrite (Hskip a p Hy). apply IH.
Qed.

Lemma linearSums_filter (l : list IApg2DPoint) :
  linearSums (filter present l) = linearSums l.
Proof.
  apply fold_left_observed. intros [len [[[[s0 s1] s2] s3] s4]] p Hy.
  now rewrite Hy.
Qed.

Lemma exponentialSums_filter {host : Host} (l : list IApg2DPoint) :
  exponentialSums (filter present l) = exponentialSums l.
Proof.
  apply fold_left_observed. intros [[[[[s0 s1] s2] s3] s4] s5] p Hy.
  now rewrite Hy.
Qed.

Lemma logarithmicSums_filter {host : Host} (l : list IApg2DPoint) :
  logarithmicSums (filter present l) = logarithmicSums l.
Proof.
  apply fold_left_observed. intros [[[s0 s1] s2] s3] p Hy.
  now rewrite Hy.
Qed.

Lemma powerSums_filter {host : Host} (l : list IApg2DPoint) :
  powerSums (filter present l) = powerSums l.
Proof.
  apply fold_left_observed. intros [[[[s0 s1] s2] s3] s4] p Hy.
  now rewrite Hy.
Qed.

Lemma polynomialSystem_filter {host : Host} (l : list IApg2DPoint) (k : nat) :
  polynomialSystem (filter present l) k = polynomialSystem l k.
Proof.
  unfold polynomialSystem. f_equal; [|f_equal].
  - apply map_ext. intros i. apply map_ext. intros j.
    apply fold_left_observed. intros acc p Hy. now rewrite Hy.
  - apply map_ext. intros i.
    apply fold_left_observed. intros acc p Hy. now rewrite Hy.
Qed.

(** The linear, exponential and polynomial fits compute their
    coefficients from the observed points alone. *)
Lemma coefficients_from_observed {host : Host} (kind : eApgRegrTypes)
      (apoints : list IApg2DPoint) (aoptions : IApgRegrOptions) :
  kind = LINEAR \/ kind = EXPONENTIAL \/ kind = POLYNOMIAL ->
  option_map coefficients (fit kind (filter present apoints) aoptions)
  = option_map coefficients (fit kind apoints aoptions).
Proof.
  intros [-> | [-> | ->]]; cbn [fit].
  - unfold linear. rewrite linearSums_filter.
    split_sums. repeat r2_computed. reflexivity.
  - unfold exponential. rewrite exponentialSums_filter.
    split_sums. repeat r2_computed. reflexivity.
  - unfold polynomial, polynomialCoefficients.
    rewrite polynomialSystem_filter.
    repeat r2_computed. reflexivity.
Qed.

(** C3, at the failing inputs: with Math.log(1) = 0, Math.log(e) = 1 and
    exact powers, the logarithmic fit of (1,1), (e,2) and a point
    without observation returns the coefficients [0.5, 1.5], and [1, 1]
    on the two observed points alone; the power fit of (1,e), (e,1) and
    a point without observation returns the exponent -0.5, and -1 on
    the two observed points alone. *)
Theorem logarithmic_power_divide_by_all_points {host : Host} :
  Math_log 1 = 0 -> Math_log Math_E = 1 ->
  exactPowers [(0, 2, 0); (1, 2, 1); (10, 3, 1000)] ->
  exists r r' q q',
    logarithmic partlyObserved DEFAULT_OPTIONS = Some r /\
    logarithmic (filter present partlyObserved) DEFAULT_OPTIONS = Some r' /\
    power partlyObservedPower DEFAULT_OPTIONS = Some q /\
    power (filter present partlyObservedPower) DEFAULT_OPTIONS = Some q' /\
    coefficients r = [0.5; 1.5] /\
    coefficients r' = [1; 1] /\
    coefficients q = [round (Math_exp 0.5) 3; -0.5] /\
    coefficients q' = [round (Math_exp 1) 3; -1].
Proof.
  intros Hlog1 HlogE H. split_facts.
  unfold logarithmic, power, partlyObserved, partlyObservedPower.
  cbn [filter present y].
  unfold logarithmicSums, powerSums.
  cbn [fold_left x y length precision DEFAULT_OPTIONS].
  use_facts.
  repeat r2_computed.
  do 4 eexists.
  do 4 (split; [reflexivity|]).
  cbn [coefficients]. unfold round. use_facts.
  eval_exp_args.
  generalize (Math_exp 0.5) (Math_exp 1). intros e1 e2.
  repeat split; repeat (f_equal; try (vm_compute; reflexivity)).
Qed.

Lemma logarithmic_power_divide_by_all_points_witness :
  exists r r' q q',
    @logarithmic SampleHost.host partlyObserved DEFAULT_OPTIONS = Some r /\
    @logarithmic SampleHost.host (filter present partlyObserved)
                 DEFAULT_OPTIONS = Some r' /\
    @power SampleHost.host partlyObservedPower DEFAULT_OPTIONS = Some q /\
    @power SampleHost.host (filter present partlyObservedPower)
           DEFAULT_OPTIONS = Some q' /\
    coefficients r = [0.5; 1.5] /\
    coefficients r' = [1; 1] /\
    coefficients q
    = [@round SampleHost.host (@Math_exp SampleHost.host 0.5) 3; -0.5] /\
    coefficients q'
    = [@round SampleHost.host (@Math_exp SampleHost.host 1) 3; -1].
Proof.
  apply (@logarithmic_power_divide_by_all_points SampleHost.host);
    try (vm_compute; reflexivity).
  repeat (apply Forall_cons; [vm_compute; reflexivity|]). apply Forall_nil.
Defined.

(** * Further properties *)

(** ** Binary64 identities *)

Lemma is_nan_Prim2SF (v : float) : is_nan v = true -> Prim2SF v = S754_nan.
Proof. intros H. unfold Prim2SF. now rewrite H. Qed.

Lemma sub_zero (b : float) : b - 0 = b.
Proof.
  apply Prim2SF_inj. rewrite sub_spec.
  change (Prim2SF 0) with (S754_zero false).
  destruct (Prim2SF b) as [s|s| |s m e]; try reflexivity.
  destruct s; reflexivity.
Qed.

Module SFScale.

Local Open Scope Z_scope.

(** The product of a mantissa by 2^52, at an exponent lowered by 52,
    rounds to the number itself. *)
Lemma round_aux_scaled s m e :
  bounded prec emax m e = true ->
  binary_round_aux prec emax s (Zpos (4503599627370496 * m)) (-52 + e)
                   loc_Exact
  = S754_finite s m e.
Proof.
  intros Hb. pose proof (SFFacts.canonical_shift m e Hb) as Hz.
  unfold binary_round_aux, shr_fexp.
  cbn [Pos.mul Zdigits2 digits2_pos].
  match goal with
  | |- context [shr _ _ (fexp prec emax (Z.pos ?d + ?z) - ?z)] =>
      assert (fexp prec emax (Z.pos d + z) - z = 52) as H52
        by (rewrite !Pos2Z.inj_succ; revert Hz;
            unfold fexp, SpecFloat.emin, prec, emax; lia);
      rewrite H52
  end.
  shr_steps.
  replace (-52 + e + 52) with e by lia.
  rewrite Hz. shr_steps.
  unfold bounded in Hb. apply andb_prop in Hb. destruct Hb as [_ Hb].
  rewrite Hb. reflexivity.
Qed.

Lemma SFmul_one_l X :
  valid_binary X = true -> SFmul prec emax SF.one X = X.
Proof.
  destruct X as [s|s| |s m e]; intros Hv; try reflexivity.
  unfold SF.one. cbn [SFmul xorb].
  apply round_aux_scaled, Hv.
Qed.

Lemma SFmul_one_r X :
  valid_binary X = true -> SFmul prec emax X SF.one = X.
Proof.
  destruct X as [s|s| |s m e]; intros Hv; unfold SF.one; cbn [SFmul];
    rewrite ?xorb_false_r; try reflexivity.
  rewrite Pos.mul_comm, Z.add_comm.
  apply round_aux_scaled, Hv.
Qed.

Lemma SFdiv_one_all X :
  valid_binary X = true -> SFdiv prec emax X SF.one = X.
Proof.
  destruct X as [s|s| |s m e]; intros Hv;
    try (unfold SF.one; cbn [SFdiv]; rewrite ?xorb_false_r; reflexivity).
  apply SFFacts.SFdiv_one, Hv.
Qed.

End SFScale.

Lemma mul_one_l (v : float) : 1 * v = v.
Proof.
  apply Prim2SF_inj. rewrite mul_spec. change (Prim2SF 1) with SF.one.
  apply SFScale.SFmul_one_l, Prim2SF_valid.
Qed.

Lemma mul_one_r (v : float) : v * 1 = v.
Proof.
  apply Prim2SF_inj. rewrite mul_spec. change (Prim2SF 1) with SF.one.
  apply SFScale.SFmul_one_r, Prim2SF_valid.
Qed.

Lemma div_one (v : float) : v / 1 = v.
Proof.
  apply Prim2SF_inj. rewrite div_spec. change (Prim2SF 1) with SF.one.
  apply SFScale.SFdiv_one_all, Prim2SF_valid.
Qed.





(** ** The rounding utility *)

Lemma round_NaN {host : Host} (number : float) (precision : Z) :
  is_nan number = true -> is_nan (round number precision) = true.
Proof.
  intros H. apply is_nan_Prim2SF in H.
  unfold round. set (factor := Math_pow 10 (Num.ofZ precision)).
  assert (Prim2SF (number * factor) = S754_nan) as Hm
      by (rewrite mul_spec, H; reflexivity).
  apply SFFacts.Prim2SF_nan. rewrite div_spec.
  unfold Num.Math_round. rewrite Hm, Hm. reflexivity.
Qed.

(** X1: round propagates NaN, whatever the precision and whatever the
    host's exponentiation returns. *)
Theorem round_propagates_NaN {host : Host} (number : float) (precision : Z) :
  is_nan number = true -> is_nan (round number precision) = true.
Proof. apply round_NaN. Qed.

Lemma round_propagates_NaN_witness :
  is_nan (@round SampleHost.host nan 3) = true.
Proof. apply (@round_propagates_NaN SampleHost.host nan 3). reflexivity. Defined.

(** X2: at precision 0, on a host with 10 ** 0 = 1, round is Math.round:
    the scaling by the factor and back changes nothing. *)
Theorem round_precision_zero {host : Host} (number : float) :
  Math_pow 10 0 = 1 -> round number 0 = Num.Math_round number.
Proof.
  intros Hpow. unfold round. change (Num.ofZ 0) with 0.
  rewrite Hpow, mul_one_r, div_one. reflexivity.
Qed.

Lemma round_precision_zero_witness :
  @round SampleHost.host 2.5 0 = Num.Math_round 2.5.
Proof. apply (@round_precision_zero SampleHost.host 2.5). reflexivity. Defined.

(** ** determinationCoefficient *)

Lemma observed_entries (all results l o : list IApg2DPoint) (s : nat)
      (p : list (option IApg2DPoint)) :
  (forall j, nth_error all (s + j) = nth_error results j) ->
  fold_left
    (fun acc ip =>
       match y (snd ip) with
       | Some _ =>
           (fst acc ++ [snd ip], snd acc ++ [nth_error all (fst ip)])
       | None => acc
       end)
    (combine (seq s (length l)) l) (o, p)
  = (o ++ filter present l, p ++ keptEntries l results).
Proof.
  revert results s o p.
  induction l as [|a l IH]; intros results s o p Hall.
  - cbn. now rewrite !app_nil_r.
  - cbn [length seq combine fold_left keptEntries filter fst snd].
    assert (present a = match y a with Some _ => true | None => false end)
      as Hp by reflexivity.
    assert (forall j, nth_error all (S s + j) = nth_error (tl results) j)
      as Htl.
    { intros j. replace (S s + j)%nat with (s + S j)%nat by lia.
      rewrite Hall. destruct results; [destruct j|]; reflexivity. }
    assert (nth_error all s = hd_error results) as Hhd.
    { specialize (Hall 0%nat). rewrite Nat.add_0_r in Hall.
      rewrite Hall. destruct results; reflexivity. }
    destruct (y a) as [v|]; rewrite Hp, (IH _ _ _ _ Htl).
    + cbn [fst snd]. rewrite Hhd, <- !app_assoc. reflexivity.
    + reflexivity.
Qed.

Lemma keptEntries_length (l results : list IApg2DPoint) :
  length (keptEntries l results) = length (filter present l).
Proof.
  revert results. induction l as [|a l IH]; intros results; [reflexivity|].
  cbn [keptEntries filter]. rewrite length_app, IH.
  destruct (present a); reflexivity.
Qed.

Lemma residualSum_entries (pre preds : list (option IApg2DPoint))
      (obs : list IApg2DPoint) (acc : option float) :
  length preds = length obs ->
  fold_left
    (fun accum ic =>
       (a <- accum ;;
        prediction <- nth (fst ic) (pre ++ preds) None ;;
        let residual :=
          Num.ofNullable (y (snd ic)) - Num.ofNullable (y prediction) in
        Some (a + residual * residual))%exn)
    (combine (seq (length pre) (length obs)) obs) acc = None
  <-> acc = None \/ In None preds.
Proof.
  revert pre preds acc.
  induction obs as [|a obs IH]; intros pre [|q preds] acc Hlen;
    try discriminate Hlen.
  - cbn. intuition.
  - injection Hlen as Hlen.
    cbn [length seq combine fold_left fst snd].
    rewrite app_nth2, Nat.sub_diag by lia. cbn [nth].
    replace (pre ++ q :: preds) with ((pre ++ [q]) ++ preds)
      by (now rewrite <- app_assoc).
    replace (S (length pre)) with (length (pre ++ [q]))
      by (rewrite length_app; cbn; lia).
    rewrite IH by exact Hlen. cbn [In].
    destruct acc as [v|]; destruct q as [q|]; intuition congruence.
Qed.

Lemma keptEntries_missing (l results : list IApg2DPoint) :
  In None (keptEntries l results)
  <-> exists i p,
      nth_error l i = Some p /\ present p = true /\ (length results <= i)%nat.
Proof.
  revert results. induction l as [|a l IH]; intros results.
  - cbn. split; [contradiction|]. intros (i & p & H & _). now destruct i.
  - cbn [keptEntries]. rewrite in_app_iff, IH. split.
    + intros [H|(i & p & Hi & Hp & Hlen)].
      * exists 0%nat, a. destruct (present a); [|contradiction].
        destruct results; cbn in H; [|destruct H as [H|[]]; discriminate H].
        repeat split. cbn. lia.
      * exists (S i), p. repeat split; try assumption.
        destruct results; cbn in *; lia.
    + intros ([|i] & p & Hi & Hp & Hlen).
      * left. cbn in Hi. injection Hi as ->. rewrite Hp.
        destruct results; [left; reflexivity | cbn in Hlen; lia].
      * right. exists i, p. repeat split; try assumption.
        destruct results; cbn in *; lia.
Qed.

(** X3: determinationCoefficient throws exactly when some observed point
    stands at an index that [results] does not have; predictions
    missing only for unobserved points are never read. *)
Theorem determinationCoefficient_throws (apoints results : list IApg2DPoint) :
  determinationCoefficient apoints results = None
  <-> exists i p,
      nth_error apoints i = Some p /\ present p = true /\
      (length results <= i)%nat.
Proof.
  rewrite <- keptEntries_missing.
  unfold determinationCoefficient, observed, indexed.
  pose proof (observed_entries results results apoints [] 0 []
                (fun j => eq_refl)) as Ho.
  cbn [app] in Ho. rewrite Ho. cbn [fst snd].
  unfold residualSum, indexed.
  pose proof (residualSum_entries [] (keptEntries apoints results)
                (filter present apoints) (Some 0)
                (keptEntries_length _ _)) as Hr.
  cbn [app length] in Hr.
  destruct (fold_left _ _ (Some 0)) as [v|].
  - split; [discriminate|]. intros H.
    destruct Hr as [_ Hr]. discriminate Hr. now right.
  - split; [|reflexivity]. intros _.
    destruct Hr as [[Hr|Hr] _]; [reflexivity | discriminate Hr | exact Hr].
Qed.





Lemma filter_present_idem (l : list IApg2DPoint) :
  filter present (filter present l) = filter present l.
Proof.
  induction l as [|a l IH]; [reflexivity|]. cbn [filter].
  destruct (present a) eqn:Ha; [|exact IH].
  cbn [filter]. now rewrite Ha, IH.
Qed.

Lemma keptPredictions_observed (l results : list IApg2DPoint) :
  length results = length l ->
  keptPredictions (filter present l) (keptPredictions l results)
  = keptPredictions l results.
Proof.
  revert results. induction l as [|a l IH]; intros [|r rs] Hlen;
    try discriminate Hlen; [reflexivity|].
  injection Hlen as Hlen. specialize (IH rs Hlen).
  unfold keptPredictions in *. cbn [combine filter fst].
  destruct (present a) eqn:Ha; [|exact IH].
  cbn [map snd combine filter fst]. rewrite Ha. cbn [map snd].
  now rewrite IH.
Qed.

Lemma keptPredictions_map (g : IApg2DPoint -> IApg2DPoint)
      (l : list IApg2DPoint) :
  keptPredictions l (map g l) = map g (filter present l).
Proof.
  unfold keptPredictions. induction l as [|a l IH]; [reflexivity|].
  cbn [map combine filter fst]. destruct (present a); cbn [map snd];
    now rewrite IH.
Qed.

Lemma keptPredictions_nil (l results : list IApg2DPoint) :
  filter present l = [] -> length results = length l ->
  keptPredictions l results = [].
Proof.
  intros Hnone Hlen. pose proof (keptPredictions_length l results Hlen) as H.
  rewrite Hnone in H. now destruct (keptPredictions l results).
Qed.

(** X5: on arrays of the same length, removing the unobserved points
    together with their predictions leaves the coefficient of
    determination unchanged. *)
Theorem determinationCoefficient_observed_only
        (apoints results : list IApg2DPoint) :
  length results = length apoints ->
  determinationCoefficient (filter present apoints)
                           (keptPredictions apoints results)
  = determinationCoefficient apoints results.
Proof.
  intros Hlen.
  rewrite (determinationCoefficient_aligned apoints results Hlen).
  rewrite determinationCoefficient_aligned
    by (now apply keptPredictions_length).
  now rewrite filter_present_idem, keptPredictions_observed.
Qed.

Lemma determinationCoefficient_observed_only_witness :
  determinationCoefficient (filter present partlyObserved)
                           (keptPredictions partlyObserved diagonal)
  = determinationCoefficient partlyObserved diagonal.
Proof.
  apply (determinationCoefficient_observed_only partlyObserved diagonal).
  reflexivity.
Defined.

(** ** gaussianElimination *)

Lemma Js_set_length (a : list float) (i : nat) (v : float) :
  length (Js.set a i v) = Nat.max (length a) (S i).
Proof.
  unfold Js.set. destruct (Nat.ltb_spec i (length a)).
  - rewrite length_app. cbn [length]. rewrite length_firstn, length_skipn. lia.
  - rewrite !length_app, repeat_length. cbn. lia.
Qed.

Lemma Js_get_set (a : list float) (i k : nat) (v : float) :
  Js.get (Js.set a i v) k = if (k =? i)%nat then v else Js.get a k.
Proof.
  unfold Js.get, Js.set. destruct (Nat.ltb_spec i (length a)) as [Hi|Hi].
  - revert i k Hi. induction a as [|x0 a IH]; intros i k Hi;
      [cbn in Hi; lia|].
    destruct i as [|i]; destruct k as [|k]; try reflexivity.
    cbn [firstn skipn app nth Nat.eqb]. apply IH. cbn in Hi. lia.
  - destruct (Nat.eqb_spec k i) as [->|Hk].
    + rewrite app_nth2 by lia. rewrite app_nth2 by (rewrite repeat_length; lia).
      rewrite repeat_length, Nat.sub_diag. reflexivity.
    + destruct (Nat.lt_ge_cases k (length a)) as [Hlt|Hge].
      * now rewrite app_nth1.
      * rewrite app_nth2 by lia. rewrite (nth_overflow a) by lia.
        destruct (Nat.lt_ge_cases k i) as [Hki|Hki].
        -- rewrite app_nth1 by (rewrite repeat_length; lia).
           apply nth_repeat.
        -- rewrite app_nth2 by (rewrite repeat_length; lia).
           apply nth_overflow. rewrite repeat_length. cbn. lia.
Qed.

(** X6: given no array, or the right-hand side alone, the solver runs no
    loop: it returns its [order] argument as the only coefficient and
    leaves the matrix as it is. *)
Theorem gaussianElimination_no_unknown (input : Matrix) (order : float) :
  (length input <= 1)%nat ->
  gaussianElimination input order = ([order], input).
Proof.
  destruct input as [|c [|c' rest]]; cbn [length]; intros H;
    [reflexivity | reflexivity | lia].
Qed.

Lemma gaussianElimination_no_unknown_witness :
  gaussianElimination [[1; 2]] 7 = ([7], [[1; 2]]).
Proof. apply gaussianElimination_no_unknown. cbn. lia. Defined.

(** X7: a system of one equation a * u = b is solved as b / a, and its
    matrix is left unchanged. *)
Theorem gaussianElimination_one_unknown
        (a b : float) (ra rb : list float) (order : float) :
  gaussianElimination [a :: ra; b :: rb] order
  = ([b / a], [a :: ra; b :: rb]).
Proof.
  cbv -[PrimFloat.sub PrimFloat.div PrimFloat.mul PrimFloat.add].
  now rewrite sub_zero.
Qed.

(** The folds of the solver that only read the matrix are folds of pure
    functions. *)
Lemma foldM_readOnly {A B : Type} (f : B -> A -> St.t B) (l : list A) :
  (forall b a, readOnly (f b a)) ->
  forall b m,
    St.foldM f l b m = (fold_left (fun b a => fst (f b a m)) l b, m).
Proof.
  intros Hf. induction l as [|a l IH]; intros b m; [reflexivity|].
  cbn [St.foldM fold_left]. unfold St.bind.
  specialize (Hf b a m). destruct (f b a m) as [b' m']. cbn in Hf. subst m'.
  apply IH.
Qed.

Lemma substitute_eq (n : nat) (m : Matrix) (cs : list float) (j : nat) :
  substitute n m cs j
  = Js.set cs j
      ((Js.get (nth n m []) j
        - fold_left
            (fun total k => total + Js.get (nth k m []) j * Js.get cs k)
            (seq (j + 1) (n - (j + 1))) 0)
       / Js.get (nth j m []) j).
Proof.
  unfold substitute, St.bind at 1.
  rewrite foldM_readOnly
    by (intros; apply readOnly_bind; [apply readOnly_rd|];
        intros; apply readOnly_ret).
  reflexivity.
Qed.

Lemma backSubstitution_pure (n : nat) (order : float) (m : Matrix) :
  backSubstitution n order m
  = (fold_left (substitute n m) (rev (seq 0 n)) [order], m).
Proof.
  unfold backSubstitution. rewrite foldM_readOnly; [reflexivity|].
  intros coefficients j.
  repeat (apply readOnly_bind; [|intro]); auto using readOnly_ret, readOnly_rd.
  apply readOnly_foldM. intros total k.
  apply readOnly_bind; [|intro]; auto using readOnly_ret, readOnly_rd.
Qed.

Lemma total_agree (m : Matrix) (j : nat) (ks : list nat)
      (cs1 cs2 : list float) (t : float) :
  (forall k, In k ks -> Js.get cs1 k = Js.get cs2 k) ->
  fold_left (fun total k => total + Js.get (nth k m []) j * Js.get cs1 k) ks t
  = fold_left (fun total k => total + Js.get (nth k m []) j * Js.get cs2 k) ks t.
Proof.
  revert t. induction ks as [|k ks IH]; intros t H; [reflexivity|].
  cbn [fold_left]. rewrite (H k) by now left.
  apply IH. intros k' Hk'. apply H. now right.
Qed.

(** A step reads the coefficients above its index only; the step of
    index 0 overwrites the one entry that may differ. *)
Lemma substitute_agree (n : nat) (m : Matrix) (cs1 cs2 : list float) (j : nat) :
  agreeAbove cs1 cs2 ->
  agreeAbove (substitute n m cs1 j) (substitute n m cs2 j) /\
  (j = 0%nat -> substitute n m cs1 j = substitute n m cs2 j).
Proof.
  intros [Hlen Hget]. rewrite !substitute_eq.
  rewrite (total_agree m j _ cs1 cs2)
    by (intros k Hk; apply in_seq in Hk; apply Hget; lia).
  set (v := (_ / _)).
  assert (forall k, (1 <= k)%nat \/ j = 0%nat ->
                    Js.get (Js.set cs1 j v) k = Js.get (Js.set cs2 j v) k)
    as Hall.
  { intros k Hk. rewrite !Js_get_set.
    destruct (Nat.eqb_spec k j) as [->|Hkj]; [reflexivity|].
    apply Hget. lia. }
  split; [split|].
  - rewrite !Js_set_length. lia.
  - intros k Hk. apply Hall. now left.
  - intros Hj. apply (nth_ext _ _ nan nan).
    + rewrite !Js_set_length. lia.
    + intros k _. apply Hall. now right.
Qed.

Lemma substitutions_agree (n : nat) (m : Matrix) (js : list nat)
      (cs1 cs2 : list float) :
  agreeAbove cs1 cs2 ->
  agreeAbove (fold_left (substitute n m) js cs1)
             (fold_left (substitute n m) js cs2).
Proof.
  revert cs1 cs2. induction js as [|j js IH]; intros cs1 cs2 H; [exact H|].
  cbn [fold_left]. apply IH. now apply substitute_agree.
Qed.

(** X8: when the system has at least one unknown, the [order] argument
    of the solver has no effect: the initial entry [coefficients[0]] is
    never read and is overwritten by the last step. *)
Theorem gaussianElimination_ignores_order (input : Matrix) (o1 o2 : float) :
  (2 <= length input)%nat ->
  gaussianElimination input o1 = gaussianElimination input o2.
Proof.
  intros Hn. unfold gaussianElimination, St.bind.
  destruct (forwardElimination (length input - 1) input) as [u m].
  rewrite !backSubstitution_pure. f_equal.
  destruct (length input - 1)%nat as [|n] eqn:Hlen; [lia|].
  cbn [seq rev]. rewrite <- seq_shift, !fold_left_app. cbn [fold_left].
  apply substitute_agree; [|reflexivity].
  apply substitutions_agree. split; [reflexivity|].
  intros k Hk. unfold Js.get. destruct k; [lia|]. reflexivity.
Qed.

Lemma gaussianElimination_ignores_order_witness :
  gaussianElimination knownSystem 3 = gaussianElimination knownSystem 0.
Proof. apply gaussianElimination_ignores_order. cbn. lia. Defined.

Lemma keeps_ret {A : Type} (Inv : Matrix -> Prop) (a : A) (Q : A -> Prop) :
  Q a -> keeps Inv (St.ret a) Q.
Proof. intros Ha m Hm. split; assumption. Qed.

Lemma keeps_rd (Inv : Matrix -> Prop) (k i : nat) :
  keeps Inv (St.rd k i) (fun _ => True).
Proof. intros m Hm. split; [exact Hm | exact I]. Qed.

Lemma keeps_bind {A B : Type} (Inv : Matrix -> Prop) (c : St.t A)
      (f : A -> St.t B) (P : A -> Prop) (Q : B -> Prop) :
  keeps Inv c P -> (forall a, P a -> keeps Inv (f a) Q) ->
  keeps Inv (St.bind c f) Q.
Proof.
  intros Hc Hf m Hm. unfold St.bind.
  destruct (Hc m Hm) as [Hm' Ha]. destruct (c m) as [a m'].
  exact (Hf a Ha m' Hm').
Qed.

Lemma keeps_forEach {A : Type} (Inv : Matrix -> Prop) (l : list A)
      (body : A -> St.t unit) :
  (forall a, In a l -> keeps Inv (body a) (fun _ => True)) ->
  keeps Inv (St.forEach l body) (fun _ => True).
Proof.
  induction l as [|a l IH]; intros Hbody; cbn [St.forEach].
  - now apply keeps_ret.
  - eapply keeps_bind; [apply Hbody; now left|].
    intros _ _. apply IH. intros a' Ha'. apply Hbody. now right.
Qed.

Lemma keeps_foldM {A B : Type} (Inv : Matrix -> Prop) (f : B -> A -> St.t B)
      (l : list A) (Q : B -> Prop) :
  (forall b a, In a l -> Q b -> keeps Inv (f b a) Q) ->
  forall b, Q b -> keeps Inv (St.foldM f l b) Q.
Proof.
  induction l as [|a l IH]; intros Hf b Hb; cbn [St.foldM].
  - now apply keeps_ret.
  - eapply keeps_bind; [apply Hf; [now left | exact Hb]|].
    intros b' Hb'. apply IH; [|exact Hb'].
    intros b0 a0 Ha0. apply Hf. now right.
Qed.

(** An assignment within the arrays keeps the shape. *)
Lemma keeps_wr (shape : list nat) (bound k i : nat) (v : float) :
  Forall (fun len => (bound <= len)%nat) shape -> (i < bound)%nat ->
  keeps (hasShape shape) (St.wr k i v) (fun _ => True).
Proof.
  intros Hshape Hi m Hm. split; [|exact I].
  unfold hasShape in *. cbn [St.wr snd].
  rewrite <- (firstn_skipn k m) in Hm at 1.
  rewrite map_app in *. rewrite <- Hm. f_equal.
  destruct (skipn k m) as [|col rest] eqn:Hsk; [reflexivity|].
  cbn [map]. f_equal. rewrite Js_set_length.
  assert (In (length col) shape) as Hin.
  { rewrite <- Hm, <- map_app. apply in_map, in_or_app. right. now left. }
  rewrite Forall_forall in Hshape. specialize (Hshape _ Hin). lia.
Qed.

Section Shape.

Variables (shape : list nat) (n : nat).
Hypothesis wide : Forall (fun len => (n <= len)%nat) shape.

(** The pivot found is an index of the arrays. *)
Lemma pivot_keeps (i : nat) :
  (i < n)%nat ->
  keeps (hasShape shape) (pivot i n) (fun maxrow => (maxrow < n)%nat).
Proof.
  intros Hi. unfold pivot.
  apply keeps_foldM; [|exact Hi].
  intros maxrow j Hj Hmax. apply in_seq in Hj.
  eapply keeps_bind; [apply keeps_rd|]. intros a _.
  eapply keeps_bind; [apply keeps_rd|]. intros b _.
  apply keeps_ret. destruct (abs b <? abs a); lia.
Qed.

Lemma swap_keeps (i maxrow : nat) :
  (i < n)%nat -> (maxrow < n)%nat ->
  keeps (hasShape shape) (swap i maxrow n) (fun _ => True).
Proof.
  intros Hi Hmax. unfold swap. apply keeps_forEach. intros k _.
  eapply keeps_bind; [apply keeps_rd|]. intros tmp _.
  eapply keeps_bind; [apply keeps_rd|]. intros v _.
  eapply keeps_bind; [now apply (keeps_wr shape n)|]. intros _ _.
  now apply (keeps_wr shape n).
Qed.

Lemma eliminate_keeps (i : nat) :
  keeps (hasShape shape) (eliminate i n) (fun _ => True).
Proof.
  unfold eliminate. apply keeps_forEach. intros j Hj. apply in_seq in Hj.
  apply keeps_forEach. intros k _.
  do 4 (eapply keeps_bind; [apply keeps_rd|]; intros ? _).
  apply (keeps_wr shape n); [exact wide | lia].
Qed.

Lemma forwardElimination_keeps :
  keeps (hasShape shape) (forwardElimination n) (fun _ => True).
Proof.
  unfold forwardElimination. apply keeps_forEach. intros i Hi.
  apply in_seq in Hi.
  eapply keeps_bind; [apply pivot_keeps; lia|]. intros maxrow Hmax.
  eapply keeps_bind; [apply swap_keeps; [lia | exact Hmax]|]. intros _ _.
  apply eliminate_keeps.
Qed.

End Shape.

(** X9: when every array of the matrix has at least as many entries as
    the system has unknowns, the solver assigns within the arrays only:
    the matrix keeps its arrays and their lengths. *)
Theorem gaussianElimination_keeps_shape (input : Matrix) (order : float) :
  Forall (fun col => (length input - 1 <= length col)%nat) input ->
  map (@length float) (snd (gaussianElimination input order))
  = map (@length float) input.
Proof.
  intros Hwide.
  unfold gaussianElimination, St.bind.
  pose proof (forwardElimination_keeps (map (@length float) input)
                (length input - 1)) as Hk.
  destruct (forwardElimination (length input - 1) input) as [u m] eqn:Hfwd.
  rewrite backSubstitution_readOnly.
  assert (Forall (fun len => (length input - 1 <= len)%nat)
                 (map (@length float) input)) as Hw.
  { apply Forall_map. exact Hwide. }
  destruct (Hk Hw input eq_refl) as [Hm _]. rewrite Hfwd in Hm. exact Hm.
Qed.

Lemma gaussianElimination_keeps_shape_witness :
  map (@length float) (snd (gaussianElimination knownSystem 3))
  = map (@length float) knownSystem.
Proof.
  apply gaussianElimination_keeps_shape.
  repeat constructor.
Defined.

Lemma descending_max (n L : nat) :
  fold_left (fun len j => Nat.max len (S j)) (rev (seq 0 n)) L = Nat.max L n.
Proof.
  revert L. induction n as [|n IH]; intros L; [cbn; lia|].
  rewrite seq_S, rev_unit. cbn [fold_left Nat.add]. rewrite IH. lia.
Qed.

Lemma substitutions_length (n : nat) (m : Matrix) (js : list nat)
      (cs : list float) :
  length (fold_left (substitute n m) js cs)
  = fold_left (fun len j => Nat.max len (S j)) js (length cs).
Proof.
  revert cs. induction js as [|j js IH]; intros cs; [reflexivity|].
  cbn [fold_left]. rewrite IH, substitute_eq, Js_set_length. reflexivity.
Qed.

(** The solver returns as many coefficients as the system has unknowns,
    and one when it has none. *)
Lemma gaussianElimination_length (input : Matrix) (order : float) :
  length (fst (gaussianElimination input order))
  = Nat.max 1 (length input - 1).
Proof.
  unfold gaussianElimination, St.bind.
  destruct (forwardElimination (length input - 1) input) as [u m].
  rewrite backSubstitution_pure. cbn [fst].
  rewrite substitutions_length, descending_max. reflexivity.
Qed.

(** ** polynomial, and the fits on partly observed points *)

Lemma polynomialSystem_length {host : Host} (apoints : list IApg2DPoint)
      (k : nat) :
  length (polynomialSystem apoints k) = S k.
Proof.
  unfold polynomialSystem.
  rewrite length_app, length_map, length_seq. cbn. lia.
Qed.

(** X10: the polynomial fit returns order + 1 coefficients, and a single
    one when the order is negative. *)
Theorem polynomial_coefficient_count {host : Host}
        (apoints : list IApg2DPoint) (aoptions : IApgRegrOptions) :
  exists r,
    polynomial apoints aoptions = Some r /\
    length (coefficients r) = Nat.max 1 (Z.to_nat (order aoptions + 1)).
Proof.
  unfold polynomial. r2_computed.
  eexists. split; [reflexivity|]. cbn [coefficients].
  unfold polynomialCoefficients.
  rewrite length_rev, length_map, gaussianElimination_length,
    polynomialSystem_length.
  f_equal. lia.
Qed.

(** X11: with a negative order the polynomial fit does not fail: the
    system has no unknown and the single coefficient is the rounded
    order + 1, which the equation prints alone. *)
Theorem polynomial_negative_order {host : Host}
        (apoints : list IApg2DPoint) (aoptions : IApgRegrOptions) :
  (order aoptions < 0)%Z ->
  exists r,
    polynomial apoints aoptions = Some r /\
    coefficients r
    = [round (Num.ofZ (order aoptions + 1)) (precision aoptions)] /\
    equation r
    = ("y = " ++ Number_toString
                   (round (Num.ofZ (order aoptions + 1))
                          (precision aoptions)))%string.
Proof.
  intros Hneg.
  assert (polynomialCoefficients apoints aoptions
          = [round (Num.ofZ (order aoptions + 1)) (precision aoptions)]) as Hc.
  { unfold polynomialCoefficients.
    replace (Z.to_nat (order aoptions + 1)) with 0%nat by lia.
    reflexivity. }
  unfold polynomial. rewrite Hc. r2_computed.
  eexists. split; [reflexivity|]. split; reflexivity.
Qed.

Lemma polynomial_negative_order_witness :
  exists r,
    @polynomial SampleHost.host diagonal {| order := -1; precision := 3 |}
    = Some r /\
    coefficients r = [@round SampleHost.host (Num.ofZ (-1 + 1)) 3] /\
    equation r
    = ("y = " ++ SampleHost.toString
                   (@round SampleHost.host (Num.ofZ (-1 + 1)) 3))%string.
Proof.
  apply (@polynomial_negative_order SampleHost.host diagonal
           {| order := -1; precision := 3 |}).
  cbn. lia.
Defined.

Lemma sum_of_observed {host : Host} (l : list IApg2DPoint) (a : float) :
  (forall v, Math_pow v 0 = 1) ->
  fold_left
    (fun a p =>
       match y p with
       | Some v => a + Math_pow (x p) 0 * v
       | None => a
       end)
    l a
  = fold_left (fun a p => a + Num.ofNullable (y p)) (filter present l) a.
Proof.
  intros Hpow. revert a. induction l as [|p l IH]; intros a; [reflexivity|].
  cbn [fold_left filter].
  assert (present p = match y p with Some _ => true | None => false end)
    as Hp by reflexivity.
  destruct (y p) as [v|] eqn:Hy; rewrite Hp, IH; [|reflexivity].
  cbn [fold_left]. rewrite Hy, Hpow, mul_one_l. reflexivity.
Qed.

Lemma count_of_observed {host : Host} (l : list IApg2DPoint) (b : float) :
  (forall v, Math_pow v 0 = 1) ->
  fold_left
    (fun b p =>
       match y p with
       | Some _ => b + Math_pow (x p) 0
       | None => b
       end)
    l b
  = fold_left (fun b _ => b + 1) (filter present l) b.
Proof.
  intros Hpow. revert b. induction l as [|p l IH]; intros b; [reflexivity|].
  cbn [fold_left filter].
  assert (present p = match y p with Some _ => true | None => false end)
    as Hp by reflexivity.
  destruct (y p) as [v|] eqn:Hy; rewrite Hp, IH; [|reflexivity].
  cbn [fold_left]. rewrite Hpow. reflexivity.
Qed.

(** X12: on a host with x ** 0 = 1, the polynomial fit of order 0
    returns the rounded mean of the observed y: their sum divided by
    their count, both accumulated from 0 in the order of the points. *)
Theorem polynomial_order_zero_is_mean {host : Host}
        (apoints : list IApg2DPoint) (aoptions : IApgRegrOptions) :
  (forall v, Math_pow v 0 = 1) ->
  order aoptions = 0%Z ->
  let observations := filter present apoints in
  let sum := fold_left (fun a p => a + Num.ofNullable (y p)) observations 0 in
  let count := fold_left (fun b _ => b + 1) observations 0 in
  exists r,
    polynomial apoints aoptions = Some r /\
    coefficients r = [round (sum / count) (precision aoptions)].
Proof.
  intros Hpow Horder observations sum count.
  assert (polynomialCoefficients apoints aoptions
          = [round (sum / count) (precision aoptions)]) as Hc.
  { unfold polynomialCoefficients, polynomialSystem. rewrite Horder.
    change (Z.to_nat (0 + 1)) with 1%nat.
    cbn [seq map app Nat.add].
    change (Num.ofNat 0) with 0.
    rewrite sum_of_observed, count_of_observed by exact Hpow.
    fold observations. fold sum. fold count.
    set (order' := Num.ofZ (0 + 1)).
    cbv -[PrimFloat.sub PrimFloat.div PrimFloat.mul PrimFloat.add round
          sum count order' precision].
    now rewrite sub_zero. }
  unfold polynomial. rewrite Hc. r2_computed.
  eexists. split; reflexivity.
Qed.

Lemma polynomial_order_zero_is_mean_witness :
  exists r,
    @polynomial SampleHost.host diagonal {| order := 0; precision := 3 |}
    = Some r /\
    coefficients r
    = [@round SampleHost.host
         (fold_left (fun a p => a + Num.ofNullable (y p))
                    (filter present diagonal) 0
          / fold_left (fun b _ => b + 1) (filter present diagonal) 0) 3].
Proof.
  apply (@polynomial_order_zero_is_mean SampleHost.host diagonal
           {| order := 0; precision := 3 |}); [|reflexivity].
  intros v. change (SampleHost.pow v 0 = 1). reflexivity.
Defined.

(** The coefficient of determination of predictions that are a function
    of the points, over the observed points. *)
Ltac r2_of_observed :=
  repeat match goal with
         | |- context [determinationCoefficient ?a (map ?g ?a)] =>
             rewrite (determinationCoefficient_aligned a (map g a))
               by apply length_map;
             rewrite (keptPredictions_map g a)
         end.

(** X13: in the linear, exponential and polynomial fits the points
    without observation are only echoed: the fit of the observed points
    alone has the same coefficients, equation and r2, and the same
    predictions at the observed points. *)
Theorem absent_points_are_echoed {host : Host} (kind : eApgRegrTypes)
        (apoints : list IApg2DPoint) (aoptions : IApgRegrOptions) :
  kind = LINEAR \/ kind = EXPONENTIAL \/ kind = POLYNOMIAL ->
  exists r r',
    fit kind apoints aoptions = Some r /\
    fit kind (filter present apoints) aoptions = Some r' /\
    coefficients r' = coefficients r /\
    equation r' = equation r /\
    r2 r' = r2 r /\
    predicted r' = keptPredictions apoints (predicted r).
Proof.
  intros [-> | [-> | ->]]; cbn [fit].
  - unfold linear. rewrite linearSums_filter. split_sums.
    r2_of_observed. rewrite filter_present_idem.
    eexists. eexists. split; [reflexivity|]. split; [reflexivity|].
    cbn [coefficients equation r2 predicted].
    rewrite keptPredictions_map. repeat split.
  - unfold exponential. rewrite exponentialSums_filter. split_sums.
    r2_of_observed. rewrite filter_present_idem.
    eexists. eexists. split; [reflexivity|]. split; [reflexivity|].
    cbn [coefficients equation r2 predicted].
    rewrite keptPredictions_map. repeat split.
  - unfold polynomial, polynomialCoefficients.
    rewrite polynomialSystem_filter.
    r2_of_observed. rewrite filter_present_idem.
    eexists. eexists. split; [reflexivity|]. split; [reflexivity|].
    cbn [coefficients equation r2 predicted].
    rewrite keptPredictions_map. repeat split.
Qed.

Lemma absent_points_are_echoed_witness :
  exists r r',
    @fit SampleHost.host LINEAR partlyObserved DEFAULT_OPTIONS = Some r /\
    @fit SampleHost.host LINEAR (filter present partlyObserved)
         DEFAULT_OPTIONS = Some r' /\
    coefficients r' = coefficients r /\
    equation r' = equation r /\
    r2 r' = r2 r /\
    predicted r' = keptPredictions partlyObserved (predicted r).
Proof.
  apply (@absent_points_are_echoed SampleHost.host LINEAR partlyObserved
           DEFAULT_OPTIONS).
  left. reflexivity.
Defined.

(** X14: when no point is observed, in particular on the empty array,
    every fit still returns, with r2 NaN; the linear fit returns the
    gradient 0 and a NaN intercept. *)
Theorem no_observation {host : Host} (kind : eApgRegrTypes)
        (apoints : list IApg2DPoint) (aoptions : IApgRegrOptions) :
  filter present apoints = [] ->
  exists r,
    fit kind apoints aoptions = Some r /\
    is_nan (r2 r) = true /\
    (kind = LINEAR ->
     exists intercept,
       coefficients r = [0; intercept] /\ is_nan intercept = true).
Proof.
  intros Hnone.
  destruct kind; cbn [fit];
    unfold linear, polynomial, power, logarithmic, exponential;
    try rewrite linearSums_observed, Hnone;
    split_sums; r2_computed;
    rewrite Hnone, keptPredictions_nil by (exact Hnone || apply length_map);
    (eexists; split; [reflexivity|]);
    cbn [r2 coefficients];
    (split; [apply round_NaN; reflexivity|]);
    try discriminate.
  intros _. eexists. split; [reflexivity|].
  apply round_NaN. reflexivity.
Qed.

Lemma no_observation_witness :
  exists r,
    @fit SampleHost.host LINEAR [mkPoint 1 None] DEFAULT_OPTIONS = Some r /\
    is_nan (r2 r) = true /\
    (LINEAR = LINEAR ->
     exists intercept,
       coefficients r = [0; intercept] /\ is_nan intercept = true).
Proof.
  apply (@no_observation SampleHost.host LINEAR [mkPoint 1 None]
           DEFAULT_OPTIONS).
  reflexivity.
Defined.
